(** * MRMS reflectivity grid processor: model and verification

    A shallow embedding of [backend/src/workers/grib_processor.py], the worker
    that turns a decoded GRIB2 product into the grid payload of the frontend.

    Numeric model.  The program computes on IEEE-754 numbers held in numpy
    arrays.  Here a grid sample is [NaN] (the "no data" marker), an
    infinity, or a rational number.  The functions of the worker are
    embedded with exact arithmetic on numbers; where a statement depends on
    the rounding of float32 it says so: [f32] tells the numbers that float32
    holds, [round32] is the rounding to float32 and [scaled_float32] the
    scaling step of the encoder with the float32 product of the source.
    Coordinate axes hold numbers only. *)

From Stdlib Require Import QArith Qabs Qround Qpower ZArith List Ascii String Lia Lqa Bool.
From stdpp Require Import base option list gmap strings.
Import ListNotations.

Open Scope Z_scope.
Open Scope Q_scope.

(** ** Exceptions *)

(** The Python exceptions that the modelled functions can raise. *)
Inductive exn : Type :=
  | IndexError
  | KeyError (key : string)
  | ValueError
  | TypeError
  | RuntimeError (msg : string).

Inductive result (A : Type) : Type :=
  | Ok (a : A)
  | Raise (e : exn).

Arguments Ok {A} a.
Arguments Raise {A} e.

Definition bind {A B : Type} (r : result A) (k : A -> result B) : result B :=
  match r with
  | Ok a => k a
  | Raise e => Raise e
  end.

Notation "x <- r ;; k" := (bind r (fun x => k))
  (at level 100, r at next level, right associativity).

(** [mapM f l] runs [f] on every element, left to right, and stops at the
    first exception. *)
Fixpoint mapM {A B : Type} (f : A -> result B) (l : list A) : result (list B) :=
  match l with
  | [] => Ok []
  | a :: l' => b <- f a ;; bs <- mapM f l' ;; Ok (b :: bs)
  end.

(** ** Samples *)

(** A float of a value grid: not-a-number, a number, or an infinity. *)
Inductive sample : Type :=
  | NaN
  | Val (q : Q)
  | PosInf
  | NegInf.

(** [np.isnan] *)
Definition isnan (s : sample) : bool :=
  match s with
  | NaN => true
  | _ => false
  end.

(** [a == b] on floats: false as soon as one side is NaN. *)
Definition sample_eqb (a b : sample) : bool :=
  match a, b with
  | Val x, Val y => Qeq_bool x y
  | PosInf, PosInf => true
  | NegInf, NegInf => true
  | _, _ => false
  end.

(** [a <= b] on floats: false as soon as one side is NaN. *)
Definition sample_leb (a b : sample) : bool :=
  match a, b with
  | NaN, _ | _, NaN => false
  | NegInf, _ => true
  | _, PosInf => true
  | Val x, Val y => Qle_bool x y
  | _, _ => false
  end.

(** ** numpy arrays of rank one and two *)

(** A rank-2 array keeps its column count beside its rows, so that the shape
    [(0, c)] exists; see [wf]. *)
Inductive ndarray (A : Type) : Type :=
  | Vec (v : list A)
  | Mat (ncols : nat) (rows : list (list A)).

Arguments Vec {A} v.
Arguments Mat {A} ncols rows.

Definition wf {A : Type} (a : ndarray A) : Prop :=
  match a with
  | Vec _ => True
  | Mat c rows => Forall (fun r => length r = c) rows
  end.

Definition ndim {A : Type} (a : ndarray A) : nat :=
  match a with
  | Vec _ => 1
  | Mat _ _ => 2
  end.

(** [a.size] *)
Definition size {A : Type} (a : ndarray A) : nat :=
  match a with
  | Vec v => length v
  | Mat c rows => (length rows * c)%nat
  end.

(** Python index normalisation on an axis of length [n]: a negative index
    counts from the end, anything outside [0, n) is an [IndexError]. *)
Definition py_index (n : nat) (i : Z) : result nat :=
  let j := (if i <? 0 then i + Z.of_nat n else i)%Z in
  if ((0 <=? j) && (j <? Z.of_nat n))%Z then Ok (Z.to_nat j) else Raise IndexError.

(** A lookup that raises [IndexError] where there is no element. *)
Definition or_index_error {A : Type} (o : option A) : result A :=
  match o with
  | Some x => Ok x
  | None => Raise IndexError
  end.

(** [v[i]] on a sequence. *)
Definition getitem {A : Type} (v : list A) (i : Z) : result A :=
  k <- py_index (length v) i ;;
  or_index_error (v !! k).

(** [a[i]] on a rank-1 array and [a[i, j]] on a rank-2 array. *)
Definition item1 {A : Type} (a : ndarray A) (i : Z) : result A :=
  match a with
  | Vec v => getitem v i
  | Mat _ _ => Raise TypeError
  end.

Definition item2 {A : Type} (a : ndarray A) (i j : Z) : result A :=
  match a with
  | Vec _ => Raise IndexError
  | Mat c rows =>
      r <- getitem rows i ;;
      k <- py_index c j ;;
      or_index_error (r !! k)
  end.

(** [a[:, j]]: column [j] of a rank-2 array. *)
Definition column {A : Type} (a : ndarray A) (j : Z) : result (list A) :=
  match a with
  | Vec _ => Raise IndexError
  | Mat c rows =>
      k <- py_index c j ;;
      mapM (fun r => or_index_error (r !! k)) rows
  end.

(** [a[i, :]]: row [i] of a rank-2 array. *)
Definition row {A : Type} (a : ndarray A) (i : Z) : result (list A) :=
  match a with
  | Vec _ => Raise IndexError
  | Mat _ rows => getitem rows i
  end.

(** [np.flipud]: reverse the first axis. *)
Definition flipud {A : Type} (a : ndarray A) : ndarray A :=
  match a with
  | Vec v => Vec (reverse v)
  | Mat c rows => Mat c (reverse rows)
  end.

(** An element-wise operation, as [np.where] and the arithmetic operators
    perform it. *)
Definition amap {A B : Type} (f : A -> B) (a : ndarray A) : ndarray B :=
  match a with
  | Vec v => Vec (map f v)
  | Mat c rows => Mat c (map (map f) rows)
  end.

(** The elements in row-major order. *)
Definition ravel {A : Type} (a : ndarray A) : list A :=
  match a with
  | Vec v => v
  | Mat _ rows => concat rows
  end.

(** ** The worker *)

Definition ensure_orientation (latitudes : ndarray Q) (values : ndarray sample)
  : result (ndarray Q * ndarray sample * bool) :=
  first_lat <- (if Nat.eqb (ndim latitudes) 2 then item2 latitudes 0 0
                else item1 latitudes 0) ;;
  last_lat <- (if Nat.eqb (ndim latitudes) 2 then item2 latitudes (-1) 0
               else item1 latitudes (-1)) ;;
  if Qlt_le_dec first_lat last_lat
  then Ok (flipud latitudes, flipud values, true)
  else Ok (latitudes, values, false).

(** [sorted] on numbers: ascending and stable. *)
Fixpoint insert_sorted (x : Q) (l : list Q) : list Q :=
  match l with
  | [] => [x]
  | y :: l' => if Qlt_le_dec y x then y :: insert_sorted x l' else x :: y :: l'
  end.

Definition sorted (l : list Q) : list Q := fold_right insert_sorted [] l.

(** [a, b = sorted((x, y))] *)
Definition sorted_pair (x y : Q) : result (Q * Q) :=
  match sorted [x; y] with
  | [a; b] => Ok (a, b)
  | _ => Raise ValueError
  end.

Definition extract_bounds (latitudes longitudes : ndarray Q)
  : result (Q * Q * Q * Q) :=
  lat_ends <-
    (if Nat.eqb (ndim latitudes) 2
     then north <- item2 latitudes 0 0 ;;
          south <- item2 latitudes (-1) 0 ;;
          Ok (north, south)
     else north <- item1 latitudes 0 ;;
          south <- item1 latitudes (-1) ;;
          Ok (north, south)) ;;
  let '(north, south) := lat_ends in
  lon_ends <-
    (if Nat.eqb (ndim longitudes) 2
     then west <- item2 longitudes 0 0 ;;
          east <- item2 longitudes 0 (-1) ;;
          Ok (west, east)
     else west <- item1 longitudes 0 ;;
          east <- item1 longitudes (-1) ;;
          Ok (west, east)) ;;
  let '(west, east) := lon_ends in
  (* Guarantee ordering south < north and west < east for Leaflet bounds *)
  sn <- sorted_pair south north ;;
  let '(south, north) := sn in
  we <- sorted_pair west east ;;
  let '(west, east) := we in
  Ok (south, west, north, east).

Definition compute_step (values : list Q) : result Q :=
  if (length values <? 2)%nat then Ok 0
  else b <- getitem values 1 ;;
       a <- getitem values 0 ;;
       Ok (Qabs (b - a)).

Definition extract_resolution (latitudes longitudes : ndarray Q)
  : result (Q * Q) :=
  lat_vector <- (if Nat.eqb (ndim latitudes) 2 then column latitudes 0
                 else Ok (ravel latitudes)) ;;
  lon_vector <- (if Nat.eqb (ndim longitudes) 2 then row longitudes 0
                 else Ok (ravel longitudes)) ;;
  lat_step <- compute_step lat_vector ;;
  lon_step <- compute_step lon_vector ;;
  Ok (lat_step, lon_step).

(** The two [np.where] passes, with the comparisons taken on the numbers as
    they stand.  The closing [astype(np.float32)] keeps NaN and the
    infinities and leaves a grid of float32 numbers as it is; so does the
    conversion of the missing value for the comparison when that value is a
    float32.  Statements that depend on either name [float32_grid] and [f32]
    among their hypotheses. *)
Definition normalise_values (values : ndarray sample) (missing_value : option sample)
  : ndarray sample :=
  let values :=
    match missing_value with
    | Some m => amap (fun v => if sample_eqb v m then NaN else v) values
    | None => values
    end in
  amap (fun v => if sample_leb v (Val (-100)) then NaN else v) values.

(** The axes of the model hold numbers, so [np.issubdtype(..., np.number)]
    holds and the branch that returns other arrays unchanged has no
    counterpart. *)
Definition wrap_longitudes (longitudes : ndarray Q) : ndarray Q :=
  amap (fun l => if Qlt_le_dec 180 l then l - 360 else l) longitudes.

(** [np.rint]: the nearest integer, a tie going to the even neighbour. *)
Definition rint (q : Q) : Z :=
  let f := Qfloor q in
  match Qcompare (q - inject_Z f) (1 # 2) with
  | Lt => f
  | Eq => if Z.even f then f else (f + 1)%Z
  | Gt => (f + 1)%Z
  end.

(** [astype(np.int16)] on an integral float, as the cast behaves on x86-64:
    a value of the int32 range is reduced into [-32768, 32767] by two's
    complement wrap-around, and any other value gives 0. *)
Definition to_int16 (z : Z) : Z :=
  if ((-2147483648 <=? z) && (z <? 2147483648))%Z
  then ((z + 32768) mod 65536 - 32768)%Z
  else 0%Z.

(** A byte is an integer of [0, 256). *)
Definition byte_ok (b : Z) : Prop := (0 <= b < 256)%Z.

(** [tobytes] of one int16: two bytes, least significant first. *)
Definition int16_bytes (z : Z) : list Z :=
  let u := (z mod 65536)%Z in [Z.land u 255; Z.shiftr u 8].

(** *** base64 *)

Definition b64_alphabet : string :=
  "ABCDEFGHIJKLMNOPQRSTUVWXYZabcdefghijklmnopqrstuvwxyz0123456789+/".

Definition b64_char (sextet : Z) : ascii :=
  match String.get (Z.to_nat sextet) b64_alphabet with
  | Some c => c
  | None => "="%char
  end.

(** The sextets of a 24-bit group, most significant first. *)
Definition sextet (group : Z) (i : Z) : Z :=
  Z.land (Z.shiftr group (6 * (3 - i))) 63.

Definition group24 (a b c : Z) : Z :=
  Z.lor (Z.shiftl a 16) (Z.lor (Z.shiftl b 8) c).

(** [base64.b64encode]: three bytes give four characters, and a last group
    of one or two bytes is padded with [=]. *)
Fixpoint b64encode (bytes : list Z) : string :=
  match bytes with
  | [] => EmptyString
  | [a] =>
      let g := group24 a 0 0 in
      String (b64_char (sextet g 0)) (String (b64_char (sextet g 1)) "==")
  | [a; b] =>
      let g := group24 a b 0 in
      String (b64_char (sextet g 0)) (String (b64_char (sextet g 1))
        (String (b64_char (sextet g 2)) "="))
  | a :: b :: c :: rest =>
      let g := group24 a b c in
      String (b64_char (sextet g 0)) (String (b64_char (sextet g 1))
        (String (b64_char (sextet g 2)) (String (b64_char (sextet g 3))
          (b64encode rest))))
  end.

(** The descriptor that [encode_values] returns beside the data. *)
Record encoding : Type := Encoding {
  format : string;
  scale : Q;
  offset : Q;
  missing : Z;
  description : string
}.

Definition scale_multiplier : Z := 10.
Definition missing_sentinel : Z := -32768.

(** An infinite float among integral ones: it is carried as [2 ^ 128], which
    is beyond every finite float32 and beyond the int32 range of the cast. *)
Definition float_infinity : Z := 340282366920938463463374607431768211456.

(** [np.where(np.isnan(values), missing_sentinel, np.rint(values * scale_multiplier))]
    on one sample: an integral float.  The product is taken exactly here;
    [scaled_float32] below takes it in float32. *)
Definition scaled_float (v : sample) : Z :=
  match v with
  | NaN => missing_sentinel
  | Val q => rint (q * inject_Z scale_multiplier)
  | PosInf => float_infinity
  | NegInf => (- float_infinity)%Z
  end.

(** The int16 buffer of [encode_values], before it is serialised. *)
Definition scaled_int16 (values : ndarray sample) : ndarray Z :=
  amap (fun v => to_int16 (scaled_float v)) values.

(** [ndarray.tobytes]: the elements in row-major order. *)
Definition tobytes (a : ndarray Z) : list Z := flat_map int16_bytes (ravel a).

Definition encode_values (values : ndarray sample) : string * encoding :=
  let scaled := scaled_int16 values in
  let encoded_bytes := b64encode (tobytes scaled) in
  let encoding :=
    {| format := "int16";
       scale := 1 / inject_Z scale_multiplier;
       offset := 0;
       missing := missing_sentinel;
       description := "value = (raw * scale) + offset; missing indicates no data" |} in
  (encoded_bytes, encoding).

(** The recipe of the descriptor, on one raw integer:
    "value = (raw * scale) + offset; missing indicates no data". *)
Definition decode (enc : encoding) (raw : Z) : sample :=
  if (raw =? missing enc)%Z then NaN
  else Val (inject_Z raw * scale enc + offset enc).

(** *** The dataset handed over by the GRIB decoder *)

Record variable : Type := Variable_ {
  attrs : gmap string sample;
  values : ndarray sample
}.

(** What the [time] entry of a dataset leads to in [format_timestamp]: the
    string that [np.datetime_as_string] returns for its first element, a
    value that [np.datetime_as_string] rejects, or an entry of several
    elements, whose truth value the lookup [... or ...] cannot take. *)
Inductive time_value : Type :=
  | Formatted (iso : string)
  | Unformattable
  | Ambiguous.

(** [time_iso] stands for the [time] entry, [None] when the dataset has
    none. *)
Record Dataset : Type := Dataset_ {
  data_vars : list (string * variable);
  coords : gmap string (ndarray Q);
  time_iso : option time_value
}.

Definition detect_missing_value (variable : variable) : option sample :=
  match attrs variable !! "missing_value"%string with
  | Some v => Some v
  | None => attrs variable !! "_FillValue"%string
  end.

Fixpoint endswith_Z (s : string) : bool :=
  match s with
  | EmptyString => false
  | String c EmptyString => Ascii.eqb c "Z"
  | String _ s' => endswith_Z s'
  end.

Definition format_timestamp (dataset : Dataset) : result (option string) :=
  match time_iso dataset with
  | None => Ok None
  | Some Ambiguous => Raise ValueError
  | Some Unformattable => Ok None
  | Some (Formatted iso) =>
      if endswith_Z iso then Ok (Some iso) else Ok (Some (iso ++ "Z")%string)
  end.

(** [np.fmin] and [np.fmax]: the smaller and the larger of two floats, a
    NaN giving way to the other one. *)
Definition fmin (a b : sample) : sample :=
  match a, b with
  | NaN, _ => b
  | _, NaN => a
  | NegInf, _ | _, NegInf => NegInf
  | PosInf, x | x, PosInf => x
  | Val x, Val y => Val (if Qlt_le_dec y x then y else x)
  end.

Definition fmax (a b : sample) : sample :=
  match a, b with
  | NaN, _ => b
  | _, NaN => a
  | PosInf, _ | _, PosInf => PosInf
  | NegInf, x | x, NegInf => x
  | Val x, Val y => Val (if Qlt_le_dec x y then y else x)
  end.

(** [np.nanmin] and [np.nanmax]: the reduction skips NaN, gives NaN when
    there is nothing else, and raises on an array without elements. *)
Definition nan_reduce (f : sample -> sample -> sample) (l : list sample) : sample :=
  fold_left f l NaN.

Definition nanmin (a : ndarray sample) : result sample :=
  if Nat.eqb (size a) 0 then Raise ValueError else Ok (nan_reduce fmin (ravel a)).

Definition nanmax (a : ndarray sample) : result sample :=
  if Nat.eqb (size a) 0 then Raise ValueError else Ok (nan_reduce fmax (ravel a)).

(** [try: ... except ValueError: math.nan] *)
Definition or_nan (r : result sample) : result sample :=
  match r with
  | Raise ValueError => Ok NaN
  | _ => r
  end.

(** [x if math.isfinite(x) else None] *)
Definition finite_or_none (s : sample) : option Q :=
  match s with
  | Val q => Some q
  | _ => None
  end.

(** [values.shape] unpacked into two names. *)
Definition shape2 {A : Type} (a : ndarray A) : result (nat * nat) :=
  match a with
  | Vec _ => Raise ValueError
  | Mat c rows => Ok (length rows, c)
  end.

Record payload : Type := Payload {
  rows : nat;
  cols : nat;
  bounds : Q * Q * Q * Q;
  latStep : Q;
  lonStep : Q;
  timestamp : option string;
  minValue : option Q;
  maxValue : option Q;
  origin : string;
  dataEncoding : encoding;
  data : string
}.

Definition getcoord (dataset : Dataset) (name : string) : result (ndarray Q) :=
  match coords dataset !! name with
  | Some a => Ok a
  | None => Raise (KeyError name)
  end.

(** [process_grib] works on the dataset that [xr.open_dataset] returns.  Its
    body is split where the normalised grid is complete: [normalised_inputs]
    is lines 161-175 of the source, [build_payload] lines 176-210. *)
Definition normalised_inputs (dataset : Dataset)
  : result (ndarray Q * ndarray Q * ndarray sample) :=
  variable <- match data_vars dataset with
              | (_, v) :: _ => Ok v
              | [] => Raise (RuntimeError "No data variables found in GRIB file")
              end ;;
  let raw_values := values variable in
  latitudes <- getcoord dataset "latitude" ;;
  longitudes <- getcoord dataset "longitude" ;;
  let longitudes := wrap_longitudes longitudes in
  oriented <- ensure_orientation latitudes raw_values ;;
  let '(latitudes, raw_values, flipped) := oriented in
  let longitudes := if flipped : bool then flipud longitudes else longitudes in
  let values := normalise_values raw_values (detect_missing_value variable) in
  Ok (latitudes, longitudes, values).

Definition build_payload (dataset : Dataset)
    (latitudes longitudes : ndarray Q) (values : ndarray sample) : result payload :=
  let '(encoded_data, encoding) := encode_values values in
  shape <- shape2 values ;;
  let '(rows, cols) := shape in
  bounds <- extract_bounds latitudes longitudes ;;
  steps <- extract_resolution latitudes longitudes ;;
  let '(lat_step, lon_step) := steps in
  timestamp <- format_timestamp dataset ;;
  min_candidate <- or_nan (nanmin values) ;;
  max_candidate <- or_nan (nanmax values) ;;
  let min_value := finite_or_none min_candidate in
  let max_value := finite_or_none max_candidate in
  Ok {| rows := rows;
        cols := cols;
        bounds := bounds;
        latStep := lat_step;
        lonStep := lon_step;
        timestamp := timestamp;
        minValue := min_value;
        maxValue := max_value;
        origin := "upper-left";
        dataEncoding := encoding;
        data := encoded_data |}.

Definition process_grib (dataset : Dataset) : result payload :=
  inputs <- normalised_inputs dataset ;;
  let '(latitudes, longitudes, values) := inputs in
  build_payload dataset latitudes longitudes values.

(** *** The command *)

Inductive status : Type :=
  | Exit (code : Z)
  | Uncaught (e : exn).

(** What a run leaves behind: the documents printed on standard output, the
    lines printed on standard error by the program itself, and how the
    process ended. *)
Record outcome : Type := Outcome {
  stdout : list payload;
  stderr : list string;
  ended : status
}.

(** [main], from the point where [parse_arguments] has returned the
    arguments: [grib_path] is the argument of [--grib] and [file] the
    dataset that [xr.open_dataset] decodes from that path, or [None] when
    the path does not exist.  The exits of [argparse] and a file that the
    decoder rejects are outside this model. *)
Definition main (grib_path : string) (file : option Dataset) : outcome :=
  match file with
  | None => {| stdout := [];
               stderr := [("File not found: " ++ grib_path)%string];
               ended := Exit 2 |}
  | Some dataset =>
      match process_grib dataset with
      | Ok payload => {| stdout := [payload]; stderr := []; ended := Exit 0 |}
      | Raise e => {| stdout := []; stderr := []; ended := Uncaught e |}
      end
  end.

(** ** Vocabulary of the statements *)

(** The first and the last sample of an axis: for a rank-2 axis, the first
    element of its first and of its last row. *)
Definition first_sample {A : Type} (a : ndarray A) : option A :=
  match a with
  | Vec v => head v
  | Mat _ rows => r ← head rows; head r
  end.

Definition last_sample {A : Type} (a : ndarray A) : option A :=
  match a with
  | Vec v => last v
  | Mat _ rows => r ← last rows; head r
  end.

(** The vector whose first two samples give the step of an axis: the axis
    itself when it has rank 1, else the first column of a latitude axis and
    the first row of a longitude axis. *)
Definition lat_vector_of (a : ndarray Q) : option (list Q) :=
  match a with
  | Vec v => Some v
  | Mat c rows => if Nat.eqb c 0 then None else Some (omap head rows)
  end.

Definition lon_vector_of (a : ndarray Q) : option (list Q) :=
  match a with
  | Vec v => Some v
  | Mat _ rows => head rows
  end.

(** The absolute difference of the first two samples of a vector, and zero
    when it has fewer than two. *)
Definition step_of (v : list Q) : Q :=
  match v with
  | a :: b :: _ => Qabs (b - a)
  | _ => 0
  end.

(** The element at row [i] and column [j]; a rank-1 array is read as a
    single column. *)
Definition cell {A : Type} (a : ndarray A) (i j : nat) : option A :=
  match a with
  | Vec v => if Nat.eqb j 0 then v !! i else None
  | Mat _ rows => r ← rows !! i; r !! j
  end.

(** The samples of a grid that are not "no data", in row-major order. *)
Definition present_samples (values : ndarray sample) : list Q :=
  omap finite_or_none (ravel values).

(** Reading base64, as the client of the payload does (RFC 4648, with
    padding): the position of a character in the alphabet, the 24-bit group
    of four sextets, and its three bytes. *)
Fixpoint index_of (c : ascii) (s : string) : option nat :=
  match s with
  | EmptyString => None
  | String d s' => if Ascii.eqb c d then Some 0%nat else S <$> index_of c s'
  end.

Definition b64_index (c : ascii) : option Z := Z.of_nat <$> index_of c b64_alphabet.

Definition regroup (s0 s1 s2 s3 : Z) : Z :=
  Z.lor (Z.shiftl s0 18) (Z.lor (Z.shiftl s1 12) (Z.lor (Z.shiftl s2 6) s3)).

Definition group_byte (group : Z) (i : Z) : Z :=
  Z.land (Z.shiftr group (8 * (2 - i))) 255.

Definition is_pad (c : ascii) : bool := Ascii.eqb c "=".

Fixpoint b64decode (s : string) : option (list Z) :=
  match s with
  | EmptyString => Some []
  | String c0 (String c1 (String c2 (String c3 rest))) =>
      s0 ← b64_index c0;
      s1 ← b64_index c1;
      if is_pad c2 then
        if is_pad c3 && String.eqb rest EmptyString
        then Some [group_byte (regroup s0 s1 0 0) 0]
        else None
      else
        s2 ← b64_index c2;
        if is_pad c3 then
          if String.eqb rest EmptyString
          then Some [group_byte (regroup s0 s1 s2 0) 0; group_byte (regroup s0 s1 s2 0) 1]
          else None
        else
          s3 ← b64_index c3;
          bytes ← b64decode rest;
          Some (group_byte (regroup s0 s1 s2 s3) 0
                :: group_byte (regroup s0 s1 s2 s3) 1
                :: group_byte (regroup s0 s1 s2 s3) 2 :: bytes)
  | _ => None
  end.

(** Reading an int16 buffer back from its bytes, two at a time, least
    significant first. *)
Fixpoint read_int16s (bytes : list Z) : list Z :=
  match bytes with
  | lo :: hi :: rest => to_int16 (lo + 256 * hi) :: read_int16s rest
  | _ => []
  end.

(** Scenario A of the specification: latitudes south to north, longitudes
    beyond 180, one sample equal to the declared missing value. *)
Definition scenario_a : Dataset :=
  {| data_vars := [("unknown"%string,
        {| attrs := <["missing_value"%string := Val (-9999)]> ∅;
           values := Mat 2 [[Val 1; Val 2]; [Val 3; Val (-9999)]] |})];
     coords := <["latitude"%string := Vec [10; 20]]>
               (<["longitude"%string := Vec [190; 200]]> ∅);
     time_iso := None |}.

Definition scenario_a_grid : ndarray sample := Mat 2 [[Val 3; NaN]; [Val 1; Val 2]].

Definition scenario_a_payload : payload :=
  {| rows := 2;
     cols := 2;
     bounds := (10, -170, 20, -160);
     latStep := 10;
     lonStep := 10;
     timestamp := None;
     minValue := Some 1;
     maxValue := Some 3;
     origin := "upper-left";
     dataEncoding :=
       {| format := "int16";
          scale := 0.1;
          offset := 0;
          missing := -32768;
          description := "value = (raw * scale) + offset; missing indicates no data" |};
     data := "HgAAgAoAFAA=" |}.

(** A grid that holds an infinite sample, as the decoder can deliver it:
    one row at latitude 20, no declared missing value. *)
Definition scenario_inf : Dataset :=
  {| data_vars := [("unknown"%string,
        {| attrs := ∅; values := Mat 2 [[Val 1; PosInf]] |})];
     coords := <["latitude"%string := Vec [20]]>
               (<["longitude"%string := Vec [-160; -150]]> ∅);
     time_iso := None |}.

(** The length of the last axis. *)
Definition ncolumns {A : Type} (a : ndarray A) : nat :=
  match a with
  | Vec v => length v
  | Mat c _ => c
  end.

(** The length of the first axis. *)
Definition nrows {A : Type} (a : ndarray A) : nat :=
  match a with
  | Vec v => length v
  | Mat _ rows => length rows
  end.

(** *** float32 *)

Definition pow2 (e : Z) : Q := 2 ^ e.

(** The numbers that float32 holds: a significand of 24 bits and an
    exponent from -149 on. *)
Definition f32 (q : Q) : Prop :=
  exists m e : Z,
    (Z.abs m < 16777216)%Z /\ (-149 <= e <= 104)%Z /\ q == inject_Z m * pow2 e.

Definition f32_sample (s : sample) : Prop :=
  match s with
  | Val q => f32 q
  | _ => True
  end.

(** A grid of float32 samples. *)
Definition float32_grid (values : ndarray sample) : Prop :=
  Forall f32_sample (ravel values).

(** The exponent of the unit in the last place of float32 at [x]: the
    largest [e] with [2 ^ (e + 23) <= |x|], and -149 below the normal
    numbers. *)
Fixpoint ulp_search (fuel : nat) (e : Z) (x : Q) : Z :=
  match fuel with
  | O => (-149)%Z
  | S fuel' =>
      if Qle_bool (pow2 (e + 23)) (Qabs x) then e else ulp_search fuel' (e - 1) x
  end.

Definition ulp_exp (x : Q) : Z := ulp_search 253 104 x.

(** Rounding to float32, to nearest with ties to even, before overflow. *)
Definition round32 (x : Q) : Q :=
  inject_Z (rint (x * pow2 (- ulp_exp x))) * pow2 (ulp_exp x).

(** The float32 nearest to a number; beyond the largest float32 it is an
    infinity. *)
Definition cast32 (x : Q) : sample :=
  let y := round32 x in
  if Qle_bool (pow2 128) y then PosInf
  else if Qle_bool y (- pow2 128) then NegInf
  else Val y.

(** [np.rint] on a float32, as an integral float. *)
Definition rint_float (s : sample) : Z :=
  match s with
  | Val y => rint y
  | PosInf => float_infinity
  | NegInf => (- float_infinity)%Z
  | NaN => missing_sentinel
  end.

(** The scaling step of [encode_values] on one sample of a float32 grid,
    with the product [values * scale_multiplier] computed in float32 as the
    source computes it. *)
Definition scaled_float32 (v : sample) : Z :=
  match v with
  | NaN => missing_sentinel
  | Val q => rint_float (cast32 (q * inject_Z scale_multiplier))
  | PosInf => float_infinity
  | NegInf => (- float_infinity)%Z
  end.

(** float32(0.35), that is 11744051 / 2^25. *)
Definition f32_0_35 : Q := 11744051 # 33554432.

(** A declared missing value that is a float32 when it is a number. *)
Definition float32_missing (missing_value : option sample) : Prop :=
  match missing_value with
  | Some m => f32_sample m
  | None => True
  end.

(** What [normalise_values] does to one sample. *)
Definition normalise_sample (missing_value : option sample) (v : sample) : sample :=
  let v := match missing_value with
           | Some m => if sample_eqb v m then NaN else v
           | None => v
           end in
  if sample_leb v (Val (-100)) then NaN else v.

(** The east end of a longitude axis: its last sample, the last element of
    the first row for a rank-2 axis. *)
Definition east_sample {A : Type} (a : ndarray A) : option A :=
  match a with
  | Vec v => last v
  | Mat _ rows => r ← head rows; last r
  end.

(** ** Sequences and indices *)

Section Indexing.
Context {A : Type}.
Implicit Types v : list A.

Lemma getitem_first v : getitem v 0 = or_index_error (head v).
  Proof.
    destruct v as [|x v]; [reflexivity|].
    unfold getitem, py_index. cbn [length].
    replace ((0 <=? 0) && (0 <? Z.of_nat (S (length v))))%Z with true
      by (symmetry; apply andb_true_iff; split; [apply Z.leb_le | apply Z.ltb_lt]; lia).
    reflexivity.
  Qed.

Lemma getitem_last v : getitem v (-1) = or_index_error (last v).
  Proof.
    destruct v as [|x v]; [reflexivity|].
    unfold getitem, py_index. cbn [Z.ltb Z.compare].
    replace ((0 <=? -1 + Z.of_nat (length (x :: v))) &&
             (-1 + Z.of_nat (length (x :: v)) <? Z.of_nat (length (x :: v))))%Z
      with true
      by (symmetry; apply andb_true_iff; split;
          [apply Z.leb_le | apply Z.ltb_lt]; cbn [length]; lia).
    cbn [bind]. rewrite last_lookup. f_equal. f_equal. cbn [length]. lia.
  Qed.

Lemma getitem_reverse_first v : getitem (reverse v) 0 = getitem v (-1).
  Proof. now rewrite getitem_first, getitem_last, head_reverse. Qed.

Lemma getitem_reverse_last v : getitem (reverse v) (-1) = getitem v 0.
  Proof. now rewrite getitem_first, getitem_last, last_reverse. Qed.

End Indexing.

Section Flip.
Context {A : Type}.
Implicit Types a : ndarray A.

Lemma flipud_involutive a : flipud (flipud a) = a.
  Proof. destruct a; cbn; now rewrite reverse_involutive. Qed.

Lemma item1_flipud_first a : item1 (flipud a) 0 = item1 a (-1).
  Proof. destruct a; cbn [flipud item1]; [apply getitem_reverse_first | reflexivity]. Qed.

Lemma item1_flipud_last a : item1 (flipud a) (-1) = item1 a 0.
  Proof. destruct a; cbn [flipud item1]; [apply getitem_reverse_last | reflexivity]. Qed.

Lemma item2_flipud_first a j : item2 (flipud a) 0 j = item2 a (-1) j.
  Proof.
    destruct a; cbn [flipud item2]; [reflexivity | now rewrite getitem_reverse_first].
  Qed.

Lemma item2_flipud_last a j : item2 (flipud a) (-1) j = item2 a 0 j.
  Proof.
    destruct a; cbn [flipud item2]; [reflexivity | now rewrite getitem_reverse_last].
  Qed.

Lemma ndim_flipud a : ndim (flipud a) = ndim a.
  Proof. now destruct a. Qed.
End Flip.

Lemma getitem_elem_of {A : Type} (v : list A) (i : Z) (x : A) :
  getitem v i = Ok x -> x ∈ v.
Proof.
  unfold getitem. destruct (py_index (length v) i) as [k|e]; [|discriminate].
  cbn [bind]. destruct (v !! k) as [y|] eqn:E; [|discriminate].
  intros [= <-]. eapply list_elem_of_lookup_2, E.
Qed.

Lemma py_index_0 (n : nat) :
  py_index n 0 = if Nat.eqb n 0 then Raise IndexError else Ok 0%nat.
Proof. destruct n; reflexivity. Qed.

(** On a rectangular array, [a[i, 0]] is the head of row [i]. *)
Lemma item2_first_column {A : Type} (c : nat) (rows : list (list A)) (i : Z) :
  wf (Mat c rows) ->
  item2 (Mat c rows) i 0 = (r <- getitem rows i ;; or_index_error (head r)).
Proof.
  intros Hwf. cbn [item2]. destruct (getitem rows i) as [r|e] eqn:E; [|reflexivity].
  cbn [bind]. apply getitem_elem_of in E.
  cbn [wf] in Hwf. rewrite Forall_forall in Hwf. specialize (Hwf r E). subst c.
  rewrite py_index_0. destruct r; reflexivity.
Qed.

Lemma first_item {A : Type} (a : ndarray A) :
  wf a ->
  (if Nat.eqb (ndim a) 2 then item2 a 0 0 else item1 a 0)
  = or_index_error (first_sample a).
Proof.
  intros Hwf. destruct a as [v|c rows]; cbn [ndim Nat.eqb first_sample].
  - apply getitem_first.
  - rewrite item2_first_column by assumption. rewrite getitem_first.
    now destruct (head rows).
Qed.

Lemma last_item {A : Type} (a : ndarray A) :
  wf a ->
  (if Nat.eqb (ndim a) 2 then item2 a (-1) 0 else item1 a (-1))
  = or_index_error (last_sample a).
Proof.
  intros Hwf. destruct a as [v|c rows]; cbn [ndim Nat.eqb last_sample].
  - apply getitem_last.
  - rewrite item2_first_column by assumption. rewrite getitem_last.
    now destruct (last rows).
Qed.

Lemma single_row_ends {A : Type} (a : ndarray A) (x y : A) :
  nrows a = 1%nat -> first_sample a = Some x -> last_sample a = Some y -> x = y.
Proof.
  destruct a as [v|c rows]; cbn [nrows first_sample last_sample].
  - destruct v as [|z [|? ?]]; try discriminate. cbn. congruence.
  - destruct rows as [|r [|? ?]]; try discriminate. cbn. congruence.
Qed.

(** ** Orientation *)

(** C5. The orientation normalizer flips the latitude axis and the value
    grid together, and reports it, exactly when the first latitude sample is
    strictly below the last one (the first element of the first and of the
    last row for a rank-2 axis).  The result is a function of these two
    samples alone, and an axis of a single row is never flipped. *)
Theorem ensure_orientation_decision
    (latitudes : ndarray Q) (values : ndarray sample) (first_lat last_lat : Q) :
  wf latitudes ->
  first_sample latitudes = Some first_lat ->
  last_sample latitudes = Some last_lat ->
  let flipped := if Qlt_le_dec first_lat last_lat then true else false in
  ensure_orientation latitudes values
  = Ok (if flipped then flipud latitudes else latitudes,
        if flipped then flipud values else values,
        flipped)
  /\ (flipped = true <-> first_lat < last_lat)
  /\ (nrows latitudes = 1%nat -> flipped = false).
Proof.
  intros Hwf Hfirst Hlast flipped. subst flipped. repeat split.
  - unfold ensure_orientation.
    rewrite first_item, last_item, Hfirst, Hlast by assumption. cbn [bind or_index_error].
    now destruct (Qlt_le_dec first_lat last_lat).
  - destruct (Qlt_le_dec first_lat last_lat); [trivial | discriminate].
  - intros Hlt. destruct (Qlt_le_dec first_lat last_lat) as [|Hle]; [reflexivity|].
    exfalso. revert Hlt. now apply Qle_not_lt.
  - intros Hone. rewrite (single_row_ends _ _ _ Hone Hfirst Hlast).
    destruct (Qlt_le_dec last_lat last_lat) as [Hlt|]; [|reflexivity].
    exfalso. revert Hlt. apply Qlt_irrefl.
Qed.

Lemma ensure_orientation_decision_witness :
  ensure_orientation (Vec [10; 20]) (Mat 2 [[Val 1; Val 2]; [Val 3; NaN]])
  = Ok (Vec [20; 10], Mat 2 [[Val 3; NaN]; [Val 1; Val 2]], true).
Proof.
  exact (proj1 (ensure_orientation_decision
                  (Vec [10; 20]) (Mat 2 [[Val 1; Val 2]; [Val 3; NaN]]) 10 20
                  I eq_refl eq_refl)).
Defined.

(** C9. The vertical flip is its own inverse, on any array, and what the
    orientation normalizer returns is a fixed point of it: run again on its
    own output it flips nothing. *)
Theorem ensure_orientation_idempotent :
  (forall (A : Type) (a : ndarray A), flipud (flipud a) = a)
  /\ (forall (latitudes latitudes' : ndarray Q) (values values' : ndarray sample)
             (flipped : bool),
        ensure_orientation latitudes values = Ok (latitudes', values', flipped) ->
        ensure_orientation latitudes' values' = Ok (latitudes', values', false)).
Proof.
  split; [intros; apply flipud_involutive|].
  intros lat lat' vals vals' flipped. unfold ensure_orientation.
  destruct (if Nat.eqb (ndim lat) 2 then item2 lat 0 0 else item1 lat 0)
    as [f|] eqn:Ef; [|discriminate].
  destruct (if Nat.eqb (ndim lat) 2 then item2 lat (-1) 0 else item1 lat (-1))
    as [l|] eqn:El; [|discriminate].
  cbn [bind]. destruct (Qlt_le_dec f l) as [Hlt|Hle]; intros [= <- <- <-].
  - rewrite ndim_flipud, item1_flipud_first, item2_flipud_first,
      item1_flipud_last, item2_flipud_last, Ef, El.
    cbn [bind]. destruct (Qlt_le_dec l f) as [Hlt'|]; [|reflexivity].
    exfalso. apply (Qlt_irrefl f). now apply Qlt_trans with l.
  - rewrite Ef, El. cbn [bind].
    destruct (Qlt_le_dec f l) as [Hlt|]; [|reflexivity].
    exfalso. revert Hlt. now apply Qle_not_lt.
Qed.

Lemma ensure_orientation_idempotent_witness :
  ensure_orientation (Vec [20; 10]) (Mat 1 [[Val 3]; [Val 1]])
  = Ok (Vec [20; 10], Mat 1 [[Val 3]; [Val 1]], false).
Proof.
  apply (proj2 ensure_orientation_idempotent
           (Vec [10; 20]) _ (Mat 1 [[Val 1]; [Val 3]]) _ true).
  reflexivity.
Defined.

(** ** Bounds *)

Lemma sorted_pair_spec (x y : Q) :
  sorted_pair x y = Ok (if Qlt_le_dec y x then (y, x) else (x, y)).
Proof.
  unfold sorted_pair, sorted. cbn [fold_right insert_sorted].
  now destruct (Qlt_le_dec y x).
Qed.

Lemma sorted_pair_ordered (x y a b : Q) :
  sorted_pair x y = Ok (a, b) -> a <= b.
Proof.
  rewrite sorted_pair_spec.
  destruct (Qlt_le_dec y x) as [Hlt|Hle]; intros [= <- <-];
    [now apply Qlt_le_weak | assumption].
Qed.

Lemma sorted_pair_members (x y a b : Q) :
  sorted_pair x y = Ok (a, b) -> (a = x \/ a = y) /\ (b = x \/ b = y).
Proof.
  rewrite sorted_pair_spec. destruct (Qlt_le_dec y x); intros [= <- <-]; auto.
Qed.

Lemma wf_nonempty_first {A : Type} (a : ndarray A) :
  wf a -> size a <> 0%nat -> exists x, first_sample a = Some x.
Proof.
  destruct a as [v|c rows]; cbn [wf size first_sample].
  - intros _ H. destruct v; [contradiction | eauto].
  - intros Hwf H. destruct rows as [|r rows]; [contradiction|].
    apply Forall_cons in Hwf as [Hr _]. cbn. destruct r; [cbn in *; lia | eauto].
Qed.

Lemma wf_nonempty_last {A : Type} (a : ndarray A) :
  wf a -> size a <> 0%nat -> exists x, last_sample a = Some x.
Proof.
  destruct a as [v|c rows]; cbn [wf size last_sample].
  - intros _ H. destruct (last v) eqn:E; [eauto|].
    apply last_None in E. now subst.
  - intros Hwf H. destruct (last rows) as [r|] eqn:E.
    + cbn. rewrite Forall_forall in Hwf.
      specialize (Hwf r (last_Some_elem_of _ _ E)).
      destruct r; [cbn in *; lia | eauto].
    + apply last_None in E. now subst.
Qed.

(** [a[0, -1]] on a rectangular array that is not empty. *)
Lemma item2_first_row_last {A : Type} (a : ndarray A) :
  wf a -> size a <> 0%nat -> ndim a = 2%nat -> exists x, item2 a 0 (-1) = Ok x.
Proof.
  destruct a as [v|c rows]; [discriminate|]. cbn [wf size item2]. intros Hwf H _.
  destruct rows as [|r rows]; [contradiction|].
  apply Forall_cons in Hwf as [Hr _]. rewrite getitem_first. cbn [head or_index_error bind].
  assert (Hc : c <> 0%nat) by lia.
  pose proof (getitem_last r) as Hl. unfold getitem in Hl. rewrite Hr in Hl.
  destruct (py_index c (-1)) as [k|e]; cbn [bind] in *.
  - rewrite Hl. destruct (last r) eqn:E; [eauto|].
    apply last_None in E. subst r. cbn in Hr. lia.
  - destruct (last r) eqn:E; [discriminate|].
    apply last_None in E. subst r. cbn in Hr. lia.
Qed.

(** C3. Whatever the direction and the rank of the two axes, the bounds that
    the extractor returns are ordered: south is at most north and west at
    most east.  It returns bounds for all rectangular axes that are not
    empty. *)
Theorem extract_bounds_ordered (latitudes longitudes : ndarray Q) :
  (forall south west north east : Q,
      extract_bounds latitudes longitudes = Ok (south, west, north, east) ->
      south <= north /\ west <= east)
  /\ (wf latitudes -> wf longitudes ->
      size latitudes <> 0%nat -> size longitudes <> 0%nat ->
      exists b, extract_bounds latitudes longitudes = Ok b).
Proof.
  split.
  - intros south west north east H. unfold extract_bounds in H.
    match type of H with bind ?r _ = _ => destruct r as [[n0 s0]|] end;
      cbn [bind] in H; [|discriminate].
    match type of H with bind ?r _ = _ => destruct r as [[w0 e0]|] end;
      cbn [bind] in H; [|discriminate].
    destruct (sorted_pair s0 n0) as [[s1 n1]|] eqn:Esn; cbn [bind] in H; [|discriminate].
    destruct (sorted_pair w0 e0) as [[w1 e1]|] eqn:Ewe; cbn [bind] in H; [|discriminate].
    injection H as <- <- <- <-.
    split; eauto using sorted_pair_ordered.
  - intros Hlat Hlon Nlat Nlon. unfold extract_bounds.
    destruct (wf_nonempty_first _ Hlat Nlat) as [n0 Hn0].
    destruct (wf_nonempty_last _ Hlat Nlat) as [s0 Hs0].
    assert (Elat : (if Nat.eqb (ndim latitudes) 2
                    then north <- item2 latitudes 0 0 ;;
                         south <- item2 latitudes (-1) 0 ;; Ok (north, south)
                    else north <- item1 latitudes 0 ;;
                         south <- item1 latitudes (-1) ;; Ok (north, south))
                   = Ok (n0, s0)).
    { pose proof (first_item _ Hlat) as Hf. pose proof (last_item _ Hlat) as Hl.
      rewrite Hn0 in Hf. rewrite Hs0 in Hl.
      destruct (Nat.eqb (ndim latitudes) 2); now rewrite Hf, Hl. }
    rewrite Elat. cbn [bind].
    destruct (wf_nonempty_first _ Hlon Nlon) as [w0 Hw0].
    assert (Elon : exists e0,
               (if Nat.eqb (ndim longitudes) 2
                then west <- item2 longitudes 0 0 ;;
                     east <- item2 longitudes 0 (-1) ;; Ok (west, east)
                else west <- item1 longitudes 0 ;;
                     east <- item1 longitudes (-1) ;; Ok (west, east))
               = Ok (w0, e0)).
    { pose proof (first_item _ Hlon) as Hf. rewrite Hw0 in Hf.
      destruct (Nat.eqb (ndim longitudes) 2) eqn:Edim.
      - apply Nat.eqb_eq in Edim.
        destruct (item2_first_row_last _ Hlon Nlon Edim) as [e0 He0].
        exists e0. now rewrite Hf, He0.
      - destruct (wf_nonempty_last _ Hlon Nlon) as [e0 He0].
        pose proof (last_item _ Hlon) as Hl. rewrite Edim, He0 in Hl.
        exists e0. now rewrite Hf, Hl. }
    destruct Elon as [e0 Elon]. rewrite Elon. cbn [bind].
    rewrite !sorted_pair_spec. cbn [bind].
    destruct (Qlt_le_dec n0 s0), (Qlt_le_dec e0 w0); eauto.
Qed.

Lemma extract_bounds_ordered_witness :
  exists b, extract_bounds (Mat 2 [[10; 10]; [20; 20]]) (Vec [-160; -170]) = Ok b.
Proof.
  apply (proj2 (extract_bounds_ordered (Mat 2 [[10; 10]; [20; 20]]) (Vec [-160; -170]))).
  - cbn. repeat constructor.
  - exact I.
  - cbn. lia.
  - cbn. lia.
Defined.

(** ** Resolution *)

Lemma getitem_nat {A : Type} (v : list A) (k : nat) :
  (k < length v)%nat -> getitem v (Z.of_nat k) = or_index_error (v !! k).
Proof.
  intros H. unfold getitem, py_index.
  replace (Z.of_nat k <? 0)%Z with false by (symmetry; apply Z.ltb_ge; lia).
  replace ((0 <=? Z.of_nat k) && (Z.of_nat k <? Z.of_nat (length v)))%Z with true
    by (symmetry; apply andb_true_iff; split; [apply Z.leb_le | apply Z.ltb_lt]; lia).
  cbn [bind]. now rewrite Nat2Z.id.
Qed.

Lemma compute_step_spec (v : list Q) : compute_step v = Ok (step_of v).
Proof.
  unfold compute_step. destruct v as [|a [|b v]]; try reflexivity.
  replace (length (a :: b :: v) <? 2)%nat with false
    by (symmetry; apply Nat.ltb_ge; cbn [length]; lia).
  pose proof (getitem_nat (a :: b :: v) 1 ltac:(cbn [length]; lia)) as H1.
  pose proof (getitem_nat (a :: b :: v) 0 ltac:(cbn [length]; lia)) as H0.
  change (Z.of_nat 1) with 1%Z in H1. change (Z.of_nat 0) with 0%Z in H0.
  rewrite H1, H0. reflexivity.
Qed.

Lemma column_first {A : Type} (c : nat) (rows : list (list A)) :
  wf (Mat c rows) -> c <> 0%nat -> column (Mat c rows) 0 = Ok (omap head rows).
Proof.
  intros Hwf Hc. cbn [column wf] in *. rewrite py_index_0.
  destruct c; [contradiction|]. cbn [Nat.eqb bind].
  induction Hwf as [|r rows Hr _ IH]; [reflexivity|].
  destruct r as [|x r]; [discriminate|].
  cbn [mapM omap]. cbn [lookup list_lookup or_index_error bind head].
  fold (@omap list _ _ _ (@head A) rows). rewrite IH. reflexivity.
Qed.

(** C7. The step of each axis is the absolute difference of the first two
    samples of its vector: the first column of a rank-2 latitude axis, the
    first row of a rank-2 longitude axis, the axis itself at rank 1.  It is
    zero when the vector has fewer than two samples, so a grid of a single
    row has a zero latitude step and a grid of a single column a zero
    longitude step. *)
Theorem extract_resolution_steps
    (latitudes longitudes : ndarray Q) (lat_vector lon_vector : list Q) :
  wf latitudes -> wf longitudes ->
  lat_vector_of latitudes = Some lat_vector ->
  lon_vector_of longitudes = Some lon_vector ->
  extract_resolution latitudes longitudes
  = Ok (step_of lat_vector, step_of lon_vector)
  /\ ((length lat_vector < 2)%nat -> step_of lat_vector = 0)
  /\ ((length lon_vector < 2)%nat -> step_of lon_vector = 0)
  /\ (nrows latitudes = 1%nat -> step_of lat_vector = 0)
  /\ (ncolumns longitudes = 1%nat -> step_of lon_vector = 0).
Proof.
  intros Hlat Hlon Elat Elon.
  assert (Hshort : forall v : list Q, (length v < 2)%nat -> step_of v = 0).
  { intros [|a [|b v]]; cbn [length]; intros; [reflexivity .. | lia]. }
  split; [|repeat split; try apply Hshort].
  - unfold extract_resolution.
    assert (E1 : (if Nat.eqb (ndim latitudes) 2 then column latitudes 0
                  else Ok (ravel latitudes)) = Ok lat_vector).
    { destruct latitudes as [v|c rows]; cbn [ndim Nat.eqb ravel lat_vector_of] in *.
      - congruence.
      - destruct (Nat.eqb c 0) eqn:Ec; [discriminate|].
        apply Nat.eqb_neq in Ec. rewrite column_first by assumption. congruence. }
    assert (E2 : (if Nat.eqb (ndim longitudes) 2 then row longitudes 0
                  else Ok (ravel longitudes)) = Ok lon_vector).
    { destruct longitudes as [v|c rows]; cbn [ndim Nat.eqb ravel lon_vector_of row] in *.
      - congruence.
      - now rewrite getitem_first, Elon. }
    rewrite E1, E2. cbn [bind]. now rewrite !compute_step_spec.
  - intros Hone. apply Hshort.
    destruct latitudes as [v|c rows]; cbn [nrows lat_vector_of] in *.
    + injection Elat as <-. lia.
    + destruct (Nat.eqb c 0); [discriminate|]. injection Elat as <-.
      destruct rows as [|r [|? ?]]; try discriminate.
      cbn. destruct (head r); cbn; lia.
  - intros Hone. apply Hshort.
    destruct longitudes as [v|c rows]; cbn [ncolumns lon_vector_of wf] in *.
    + injection Elon as <-. lia.
    + destruct rows as [|r rows]; [discriminate|]. injection Elon as ->.
      apply Forall_cons in Hlon as [Hr _]. lia.
Qed.

Lemma extract_resolution_steps_witness :
  extract_resolution (Mat 2 [[50; 50]; [49; 49]; [47; 47]]) (Vec [-130])
  = Ok (1, 0).
Proof.
  refine (proj1 (extract_resolution_steps
                   (Mat 2 [[50; 50]; [49; 49]; [47; 47]]) (Vec [-130])
                   [50; 49; 47] [-130] _ I eq_refl eq_refl)).
  cbn. repeat constructor.
Defined.

(** ** Element-wise operations *)

Section Elementwise.
Context {A B : Type} (f : A -> B).

Lemma ravel_amap (a : ndarray A) : ravel (amap f a) = map f (ravel a).
  Proof. destruct a; cbn [ravel amap]; [reflexivity | now rewrite concat_map]. Qed.

Lemma cell_amap (a : ndarray A) (i j : nat) :
    cell (amap f a) i j = f <$> cell a i j.
  Proof.
    destruct a as [v|c rows]; cbn [cell amap].
    - destruct (Nat.eqb j 0); [apply list_lookup_fmap | reflexivity].
    - change (map (map f) rows) with (map f <$> rows). rewrite list_lookup_fmap.
      destruct (rows !! i) as [r|]; cbn; [apply list_lookup_fmap | reflexivity].
  Qed.

Lemma shape2_amap (a : ndarray A) : shape2 (amap f a) = shape2 a.
  Proof. destruct a; cbn [shape2 amap]; [reflexivity | now rewrite length_map]. Qed.

Lemma wf_amap (a : ndarray A) : wf a -> wf (amap f a).
  Proof.
    destruct a as [v|c rows]; cbn [wf amap]; [trivial|].
    intros H. apply Forall_map. eapply Forall_impl; [exact H|].
    intros r Hr. cbn. now rewrite length_map.
  Qed.
End Elementwise.

Section Membership.
Context {A : Type}.
Implicit Types a : ndarray A.

Lemma elem_of_concat (x : A) (ls : list (list A)) :
    x ∈ concat ls <-> exists l, l ∈ ls /\ x ∈ l.
  Proof.
    rewrite list_elem_of_In, in_concat.
    split; intros (l & H1 & H2); exists l; split; now apply list_elem_of_In.
  Qed.

Lemma elem_of_ravel_flipud a x : x ∈ ravel (flipud a) <-> x ∈ ravel a.
  Proof.
    destruct a as [v|c rows]; cbn [ravel flipud].
    - apply elem_of_reverse.
    - rewrite !elem_of_concat.
      split; intros (r & Hr & Hx); exists r; split; try assumption;
        now apply elem_of_reverse.
  Qed.

Lemma item1_elem_of a i x : item1 a i = Ok x -> x ∈ ravel a.
  Proof. destruct a; cbn [item1 ravel]; [apply getitem_elem_of | discriminate]. Qed.

Lemma item2_elem_of a i j x : item2 a i j = Ok x -> x ∈ ravel a.
  Proof.
    destruct a as [v|c rows]; cbn [item2 ravel]; [discriminate|].
    destruct (getitem rows i) as [r|] eqn:Er; [|discriminate]. cbn [bind].
    destruct (py_index c j) as [k|]; [|discriminate]. cbn [bind].
    destruct (r !! k) as [y|] eqn:Ey; [|discriminate]. intros [= <-].
    apply elem_of_concat. exists r. split.
    - eapply getitem_elem_of, Er.
    - eapply list_elem_of_lookup_2, Ey.
  Qed.
End Membership.

(** West and east are samples of the longitude axis. *)
Lemma extract_bounds_samples (latitudes longitudes : ndarray Q) (south west north east : Q) :
  extract_bounds latitudes longitudes = Ok (south, west, north, east) ->
  west ∈ ravel longitudes /\ east ∈ ravel longitudes.
Proof.
  intros H. unfold extract_bounds in H.
  match type of H with bind ?r _ = _ => destruct r as [[n0 s0]|] end;
    cbn [bind] in H; [|discriminate].
  match type of H with bind ?r _ = _ => destruct r as [[w0 e0]|] eqn:Elon end;
    cbn [bind] in H; [|discriminate].
  destruct (sorted_pair s0 n0) as [[s1 n1]|]; cbn [bind] in H; [|discriminate].
  destruct (sorted_pair w0 e0) as [[w1 e1]|] eqn:Ewe; cbn [bind] in H; [|discriminate].
  injection H as <- <- <- <-.
  assert (Hin : w0 ∈ ravel longitudes /\ e0 ∈ ravel longitudes).
  { destruct (Nat.eqb (ndim longitudes) 2).
    - destruct (item2 longitudes 0 0) as [w|] eqn:Ew; [|discriminate].
      destruct (item2 longitudes 0 (-1)) as [e|] eqn:Ee; [|discriminate].
      injection Elon as <- <-. eauto using item2_elem_of.
    - destruct (item1 longitudes 0) as [w|] eqn:Ew; [|discriminate].
      destruct (item1 longitudes (-1)) as [e|] eqn:Ee; [|discriminate].
      injection Elon as <- <-. eauto using item1_elem_of. }
  destruct Hin as [Hw He].
  destruct (sorted_pair_members _ _ _ _ Ewe) as [[-> | ->] [-> | ->]]; auto.
Qed.

(** ** The orchestrator, step by step *)

Lemma process_grib_inv (dataset : Dataset) (p : payload) :
  process_grib dataset = Ok p ->
  exists latitudes longitudes values,
    normalised_inputs dataset = Ok (latitudes, longitudes, values)
    /\ build_payload dataset latitudes longitudes values = Ok p.
Proof.
  unfold process_grib. destruct (normalised_inputs dataset) as [[[lat lon] vals]|];
    [|discriminate].
  cbn [bind]. eauto.
Qed.

Lemma normalised_inputs_longitudes
    (dataset : Dataset) (latitudes longitudes lon0 : ndarray Q) (values : ndarray sample) :
  normalised_inputs dataset = Ok (latitudes, longitudes, values) ->
  coords dataset !! "longitude"%string = Some lon0 ->
  longitudes = wrap_longitudes lon0 \/ longitudes = flipud (wrap_longitudes lon0).
Proof.
  intros H Hlon. unfold normalised_inputs, getcoord in H. rewrite Hlon in H.
  destruct (data_vars dataset) as [|[name var] rest]; [discriminate|]. cbn [bind] in H.
  destruct (coords dataset !! "latitude"%string); [|discriminate]. cbn [bind] in H.
  destruct (ensure_orientation _ _) as [[[lat' raw'] flipped]|]; [|discriminate].
  cbn [bind] in H. injection H as _ <- _. destruct flipped; auto.
Qed.

Lemma build_payload_inv
    (dataset : Dataset) (latitudes longitudes : ndarray Q) (values : ndarray sample)
    (p : payload) :
  build_payload dataset latitudes longitudes values = Ok p ->
  shape2 values = Ok (rows p, cols p)
  /\ extract_bounds latitudes longitudes = Ok (bounds p)
  /\ extract_resolution latitudes longitudes = Ok (latStep p, lonStep p)
  /\ (exists lo, or_nan (nanmin values) = Ok lo /\ minValue p = finite_or_none lo)
  /\ (exists hi, or_nan (nanmax values) = Ok hi /\ maxValue p = finite_or_none hi)
  /\ dataEncoding p = snd (encode_values values)
  /\ data p = fst (encode_values values).
Proof.
  unfold build_payload. intros H.
  destruct (encode_values values) as [encoded enc].
  destruct (shape2 values) as [[r c]|]; [|discriminate]. cbn [bind] in H.
  destruct (extract_bounds latitudes longitudes) as [b|]; [|discriminate]. cbn [bind] in H.
  destruct (extract_resolution latitudes longitudes) as [[ls os]|]; [|discriminate].
  cbn [bind] in H.
  destruct (format_timestamp dataset) as [ts|]; [|discriminate]. cbn [bind] in H.
  destruct (or_nan (nanmin values)) as [lo|]; [|discriminate]. cbn [bind] in H.
  destruct (or_nan (nanmax values)) as [hi|]; [|discriminate]. cbn [bind] in H.
  injection H as <-. cbn. repeat split; eauto.
Qed.

(** Scenario A of the specification, run through the whole worker. *)
Lemma scenario_a_processed :
  normalised_inputs scenario_a = Ok (Vec [20; 10], Vec [-160; -170], scenario_a_grid)
  /\ process_grib scenario_a = Ok scenario_a_payload.
Proof. split; vm_compute; reflexivity. Qed.

(** ** Longitudes *)

(** C2, as the code has it.  When every longitude of the axis lies in
    [-180, 540], every longitude that the normalizer returns lies in the
    closed interval [-180, 180], and so do the west and east bounds of the
    payload. *)
Theorem wrap_longitudes_range (longitudes : ndarray Q) :
  (forall x, x ∈ ravel longitudes -> -180 <= x /\ x <= 540) ->
  (forall y, y ∈ ravel (wrap_longitudes longitudes) -> -180 <= y /\ y <= 180)
  /\ (forall (dataset : Dataset) (p : payload),
        coords dataset !! "longitude"%string = Some longitudes ->
        process_grib dataset = Ok p ->
        let '(_, west, _, east) := bounds p in
        (-180 <= west /\ west <= 180) /\ (-180 <= east /\ east <= 180)).
Proof.
  intros Hin.
  assert (Hout : forall y, y ∈ ravel (wrap_longitudes longitudes) ->
                           -180 <= y /\ y <= 180).
  { intros y Hy. unfold wrap_longitudes in Hy. rewrite ravel_amap in Hy.
    apply list_elem_of_In, in_map_iff in Hy as (x & <- & Hx).
    apply list_elem_of_In, Hin in Hx.
    destruct (Qlt_le_dec 180 x); lra. }
  split; [exact Hout|].
  intros dataset p Hlon Hp.
  apply process_grib_inv in Hp as (lat & lon & vals & Hnorm & Hbuild).
  apply build_payload_inv in Hbuild as (_ & Hb & _).
  destruct (bounds p) as [[[south west] north] east].
  apply extract_bounds_samples in Hb as [Hw He].
  destruct (normalised_inputs_longitudes _ _ _ _ _ Hnorm Hlon) as [-> | ->];
    rewrite ?elem_of_ravel_flipud in Hw, He; auto.
Qed.

Lemma wrap_longitudes_range_witness :
  -170 ∈ ravel (wrap_longitudes (Vec [190; 200])) /\ -180 <= -170 /\ -170 <= 180.
Proof.
  assert (Hin : -170 ∈ ravel (wrap_longitudes (Vec [190; 200])))
    by (apply list_elem_of_In; left; reflexivity).
  split; [exact Hin|].
  refine (proj1 (wrap_longitudes_range (Vec [190; 200]) _) (-170) Hin).
  intros x Hx. cbn [ravel] in Hx.
  apply list_elem_of_In in Hx. cbn [In] in Hx.
  destruct Hx as [<- | [<- | []]]; split; discriminate.
Defined.

(** C2, as the claim states it, fails on a global axis with a sample at the
    antimeridian: a longitude of exactly 180 is kept, and it is the east
    bound. *)
Lemma wrap_longitudes_range_counterexample :
  wrap_longitudes (Vec [0; 90; 180]) = Vec [0; 90; 180]
  /\ extract_bounds (Vec [10]) (wrap_longitudes (Vec [0; 90; 180])) = Ok (10, 0, 10, 180)
  /\ ~ (forall y, y ∈ ravel (wrap_longitudes (Vec [0; 90; 180])) ->
                  -180 <= y /\ y < 180).
Proof.
  repeat split.
  intros H. destruct (H 180) as [_ Hlt].
  - cbn. apply list_elem_of_In. cbn. auto.
  - revert Hlt. apply Qlt_irrefl.
Qed.

(** The normalizer subtracts 360 once and only above 180: longitudes
    outside [-180, 540] stay outside [-180, 180]. *)
Lemma wrap_longitudes_single_turn :
  wrap_longitudes (Vec [600; -200]) = Vec [240; -200].
Proof. reflexivity. Qed.

(** ** Missing values *)

(** C4. A sample that equals the declared missing value, or that is at most
    -100, is "no data" in the normalised grid, and the integer written for it
    in the encoded buffer is the missing sentinel -32768, which the
    descriptor decodes to "no data". *)
Theorem missing_value_propagation
    (values : ndarray sample) (missing_value : option sample) (i j : nat) (v : Q) :
  cell values i j = Some (Val v) ->
  (exists m, missing_value = Some (Val m) /\ v == m) \/ v <= -100 ->
  let normalised := normalise_values values missing_value in
  cell normalised i j = Some NaN
  /\ cell (scaled_int16 normalised) i j = Some (-32768)%Z
  /\ decode (snd (encode_values normalised)) (-32768) = NaN.
Proof.
  intros Hcell Hmiss normalised.
  assert (Hnan : cell normalised i j = Some NaN).
  { subst normalised. unfold normalise_values. rewrite cell_amap.
    destruct Hmiss as [(m & -> & Hm) | Hle].
    - rewrite cell_amap, Hcell. cbn.
      apply Qeq_bool_iff in Hm. now rewrite Hm.
    - assert (Hb : sample_leb (Val v) (Val (-100)) = true)
        by now apply Qle_bool_iff.
      destruct missing_value as [m|]; rewrite ?cell_amap, Hcell; cbn.
      + cbn in Hb. destruct m as [|y| |]; cbn; try (now rewrite Hb).
        destruct (Qeq_bool v y); cbn; [reflexivity | now rewrite Hb].
      + cbn in Hb. now rewrite Hb. }
  repeat split; [exact Hnan|].
  unfold scaled_int16. now rewrite cell_amap, Hnan.
Qed.

Lemma missing_value_propagation_witness :
  cell (scaled_int16 (normalise_values (Mat 2 [[Val 1; Val 2]; [Val 3; Val (-9999)]])
                                       (Some (Val (-9999))))) 1 1
  = Some (-32768)%Z.
Proof.
  refine (proj1 (proj2 (missing_value_propagation
            (Mat 2 [[Val 1; Val 2]; [Val 3; Val (-9999)]]) (Some (Val (-9999)))
            1 1 (-9999) eq_refl _))).
  left. exists (-9999). split; reflexivity.
Defined.

(** ** Failure without a data variable *)

(** C8. On a dataset that declares no data variable the run fails with the
    error of that condition, before anything is computed, and the command
    prints no document. *)
Theorem no_data_variable_fails (grib_path : string) (dataset : Dataset) :
  data_vars dataset = [] ->
  process_grib dataset = Raise (RuntimeError "No data variables found in GRIB file")
  /\ stdout (main grib_path (Some dataset)) = []
  /\ ended (main grib_path (Some dataset))
     = Uncaught (RuntimeError "No data variables found in GRIB file").
Proof.
  intros H.
  assert (E : process_grib dataset
              = Raise (RuntimeError "No data variables found in GRIB file")).
  { unfold process_grib, normalised_inputs. now rewrite H. }
  unfold main. rewrite E. auto.
Qed.

Lemma no_data_variable_fails_witness :
  stdout (main "empty.grib2" (Some {| data_vars := []; coords := ∅; time_iso := None |}))
  = [].
Proof.
  exact (proj1 (proj2 (no_data_variable_fails "empty.grib2"
           {| data_vars := []; coords := ∅; time_iso := None |} eq_refl))).
Defined.

(** ** Quantization *)

Lemma rint_close (q : Q) : Qabs (inject_Z (rint q) - q) <= 1 # 2.
Proof.
  unfold rint.
  pose proof (Qfloor_le q) as Hlo. pose proof (Qlt_floor q) as Hhi.
  rewrite inject_Z_plus in Hhi. change (inject_Z 1) with 1 in Hhi.
  apply Qabs_Qle_condition.
  destruct (Qcompare_spec (q - inject_Z (Qfloor q)) (1 # 2)) as [He|Hl|Hg].
  - destruct (Z.even (Qfloor q));
      rewrite ?inject_Z_plus; change (inject_Z 1) with 1; split; lra.
  - split; lra.
  - rewrite inject_Z_plus. change (inject_Z 1) with 1. split; lra.
Qed.

Lemma to_int16_in_range (z : Z) : (-32768 <= z <= 32767)%Z -> to_int16 z = z.
Proof.
  intros H. unfold to_int16.
  replace ((-2147483648 <=? z) && (z <? 2147483648))%Z with true
    by (symmetry; apply andb_true_iff; split; [apply Z.leb_le | apply Z.ltb_lt]; lia).
  rewrite Z.mod_small; lia.
Qed.

(** Below 32767.5 in magnitude, rounding stays in the int16 range and off
    the sentinel. *)
Lemma rint_in_range (q : Q) :
  Qabs q < 32767.5 -> (-32767 <= rint q <= 32767)%Z.
Proof.
  intros H. pose proof (rint_close q) as Hc.
  apply Qabs_Qle_condition in Hc. apply Qabs_Qlt_condition in H.
  assert (Hlo : inject_Z (-32768) < inject_Z (rint q))
    by (change (inject_Z (-32768)) with (-32768); lra).
  assert (Hhi : inject_Z (rint q) < inject_Z 32768)
    by (change (inject_Z 32768) with 32768; lra).
  rewrite <- Zlt_Qlt in Hlo, Hhi. lia.
Qed.

(** *** Rounding to float32 *)

Lemma pow2_pos (e : Z) : 0 < pow2 e.
Proof. apply Qpower_0_lt. reflexivity. Qed.

Lemma pow2_inv (e : Z) : pow2 (- e) * pow2 e == 1.
Proof.
  unfold pow2. rewrite <- Qpower_plus by discriminate.
  now rewrite Z.add_opp_diag_l.
Qed.

Lemma pow2_le (a b : Z) : (a <= b)%Z -> pow2 a <= pow2 b.
Proof. intros H. apply Qpower_le_compat_l; [assumption | discriminate]. Qed.

Lemma pow2_nonneg_integer (e : Z) : (0 <= e)%Z -> pow2 e == inject_Z (2 ^ e).
Proof. intros H. unfold pow2. now rewrite Zpower_Qpower. Qed.

Lemma ulp_search_spec (fuel : nat) (e : Z) (x : Q) :
  ulp_search fuel e x = (-149)%Z
  \/ pow2 (ulp_search fuel e x + 23) <= Qabs x.
Proof.
  revert e. induction fuel as [|fuel IH]; intros e; cbn [ulp_search]; [now left|].
  destruct (Qle_bool (pow2 (e + 23)) (Qabs x)) eqn:E; [|apply IH].
  right. now apply Qle_bool_iff.
Qed.

(** Below 2^15 the unit in the last place is at most 2^-9. *)
Lemma ulp_exp_small (x : Q) : Qabs x < 32768 -> (ulp_exp x <= -9)%Z.
Proof.
  intros Hx. unfold ulp_exp.
  destruct (ulp_search_spec 253 104 x) as [-> | H]; [lia|].
  destruct (Z_le_gt_dec (ulp_search 253 104 x) (-9)) as [|Hgt]; [assumption|].
  exfalso. assert (H15 : pow2 15 <= pow2 (ulp_search 253 104 x + 23))
    by (apply pow2_le; lia).
  assert (E : pow2 15 == 32768) by reflexivity. lra.
Qed.

(** Rounding to float32 moves a number by at most half a unit in the last
    place. *)
Lemma round32_close (x : Q) :
  Qabs (round32 x - x) <= pow2 (ulp_exp x) * (1 # 2).
Proof.
  unfold round32. set (u := ulp_exp x).
  pose proof (pow2_pos u) as Hp. pose proof (pow2_inv u) as Hinv.
  pose proof (rint_close (x * pow2 (- u))) as Hc.
  set (k := inject_Z (rint (x * pow2 (- u)))) in *.
  set (p := pow2 u) in *. set (pinv := pow2 (- u)) in *.
  assert (E : k * p - x == (k - x * pinv) * p).
  { transitivity (k * p - x * (pinv * p)); [rewrite Hinv|]; ring. }
  rewrite E, Qabs_Qmult, (Qabs_pos p) by now apply Qlt_le_weak.
  rewrite (Qmult_comm p). now apply Qmult_le_r.
Qed.

Lemma round32_close_small (x : Q) :
  Qabs x < 32768 -> Qabs (round32 x - x) <= 1 # 1024.
Proof.
  intros Hx. pose proof (round32_close x) as Hc.
  pose proof (pow2_le _ _ (ulp_exp_small x Hx)) as Hu.
  assert (E : pow2 (-9) == 1 # 512) by reflexivity. lra.
Qed.

Lemma cast32_small (x : Q) : Qabs x < 32768 -> cast32 x = Val (round32 x).
Proof.
  intros Hx. pose proof (round32_close_small x Hx) as Hc.
  apply Qabs_Qle_condition in Hc. apply Qabs_Qlt_condition in Hx.
  assert (E : pow2 128 == 340282366920938463463374607431768211456) by reflexivity.
  unfold cast32.
  destruct (Qle_bool (pow2 128) (round32 x)) eqn:E1;
    [apply Qle_bool_iff in E1; exfalso; lra|].
  destruct (Qle_bool (round32 x) (- pow2 128)) eqn:E2;
    [apply Qle_bool_iff in E2; exfalso; lra|].
  reflexivity.
Qed.

(** A float32 of magnitude 2048 or more is a multiple of 2^-12. *)
Lemma f32_grid_4096 (v : Q) :
  f32 v -> 2048 <= Qabs v -> exists n : Z, v == inject_Z n * (1 # 4096).
Proof.
  intros (m & e & Hm & He & Hv) Hbig.
  destruct (Z_le_gt_dec (-12) e) as [Hge|Hlt].
  - exists (m * 2 ^ (e + 12))%Z.
    rewrite inject_Z_mult, <- pow2_nonneg_integer by lia.
    assert (E : pow2 (e + 12) == pow2 e * 4096).
    { unfold pow2. rewrite Qpower_plus by discriminate. reflexivity. }
    rewrite Hv, E. field.
  - exfalso.
    assert (Hpow : pow2 e <= 1 # 8192).
    { assert (E : pow2 (-13) == 1 # 8192) by reflexivity.
      rewrite <- E. apply pow2_le. lia. }
    assert (Habs : Qabs v == inject_Z (Z.abs m) * pow2 e).
    { rewrite Hv, Qabs_Qmult, (Qabs_pos (pow2 e)) by apply Qlt_le_weak, pow2_pos.
      reflexivity. }
    assert (Hm' : inject_Z (Z.abs m) <= 16777215) by
      (change 16777215 with (inject_Z 16777215); rewrite <- Zle_Qle; lia).
    assert (H0 : 0 <= inject_Z (Z.abs m)) by
      (change 0 with (inject_Z 0); rewrite <- Zle_Qle; lia).
    pose proof (pow2_pos e) as Hp.
    assert (H1 : inject_Z (Z.abs m) * pow2 e <= 16777215 * (1 # 8192)).
    { apply Qle_trans with (inject_Z (Z.abs m) * (1 # 8192)).
      - rewrite !(Qmult_comm (inject_Z (Z.abs m))).
        destruct (Qle_lt_or_eq _ _ H0) as [Hpos | Hz].
        + now apply Qmult_le_r.
        + rewrite <- Hz. lra.
      - apply Qmult_le_r; [reflexivity | assumption]. }
    lra.
Qed.

(** The float32 product of a float32 below 3276.75 and ten stays below
    32767.5, where [np.rint] would leave the int16 range. *)
Lemma f32_product_in_range (v : Q) :
  f32 v -> Qabs v < 3276.75 -> Qabs (round32 (v * 10)) < 32767.5.
Proof.
  intros Hf Hv.
  assert (Hx : Qabs (v * 10) < 32768)
    by (apply Qabs_Qlt_condition in Hv; apply Qabs_Qlt_condition; split; lra).
  pose proof (round32_close_small _ Hx) as Hc. apply Qabs_Qle_condition in Hc.
  destruct (Qlt_le_dec (Qabs v) 2048) as [Hsmall|Hbig].
  - apply Qabs_Qlt_condition in Hsmall. apply Qabs_Qlt_condition. split; lra.
  - destruct (f32_grid_4096 v Hf Hbig) as [n Hn].
    apply Qabs_Qlt_condition in Hv as [Hlo Hhi].
    assert (Hn1 : (n < 13421568)%Z).
    { rewrite Zlt_Qlt. change (inject_Z 13421568) with 13421568. lra. }
    assert (Hn2 : (-13421568 < n)%Z).
    { rewrite Zlt_Qlt. change (inject_Z (-13421568)) with (-13421568). lra. }
    assert (Hn3 : inject_Z n <= 13421567)
      by (change 13421567 with (inject_Z 13421567); rewrite <- Zle_Qle; lia).
    assert (Hn4 : -13421567 <= inject_Z n)
      by (change (-13421567) with (inject_Z (-13421567)); rewrite <- Zle_Qle; lia).
    apply Qabs_Qlt_condition. split; lra.
Qed.

(** The scaling step with the float32 product: inside the usable range the
    cast changes nothing, the sentinel is not hit, and the integer is within
    a half and 2^-10 of ten times the sample. *)
Lemma quantize_float32 (v : Q) :
  f32 v -> Qabs v < 3276.75 ->
  let raw := to_int16 (scaled_float32 (Val v)) in
  (-32767 <= raw <= 32767)%Z
  /\ Qabs (inject_Z raw - v * 10) <= 513 # 1024.
Proof.
  intros Hf Hv raw. subst raw. cbn [scaled_float32].
  change (inject_Z scale_multiplier) with 10.
  assert (Hx : Qabs (v * 10) < 32768)
    by (apply Qabs_Qlt_condition in Hv; apply Qabs_Qlt_condition; split; lra).
  rewrite cast32_small by assumption. cbn [rint_float].
  pose proof (f32_product_in_range v Hf Hv) as Hy.
  pose proof (rint_in_range _ Hy) as Hr.
  pose proof (rint_close (round32 (v * 10))) as Hc1.
  pose proof (round32_close_small _ Hx) as Hc2.
  rewrite to_int16_in_range by lia. split; [lia|].
  apply Qabs_Qle_condition in Hc1, Hc2. apply Qabs_Qle_condition. split; lra.
Qed.

(** C1, as the code has it.  The grid that reaches [encode_values] holds
    float32 numbers, and [values * SCALE_MULTIPLIER] is rounded to float32
    before [np.rint] sees it.  A sample [v] with [|v| < 3276.75] is written
    as an integer that the descriptor decodes to a value within 0.0501 of
    [v]: a half from the rounding to an integer and at most 2^-10 from the
    rounding of the product, both divided by ten.  This holds for the
    quantiser on exact products, [scaled_int16], and, for every float32 [v],
    for the quantiser on float32 products, [scaled_float32].  A "no data"
    sample is written as -32768, which the descriptor decodes to
    "no data". *)
Theorem quantization_round_trip (values : ndarray sample) (i j : nat) :
  let enc := snd (encode_values values) in
  (forall v : Q,
      cell values i j = Some (Val v) ->
      Qabs v < 3276.75 ->
      (exists (raw : Z) (w : Q),
        cell (scaled_int16 values) i j = Some raw
        /\ decode enc raw = Val w
        /\ Qabs (w - v) <= 0.0501)
      /\ (f32 v ->
          exists w : Q,
            decode enc (to_int16 (scaled_float32 (Val v))) = Val w
            /\ Qabs (w - v) <= 0.0501))
  /\ (cell values i j = Some NaN ->
      cell (scaled_int16 values) i j = Some (-32768)%Z
      /\ to_int16 (scaled_float32 NaN) = (-32768)%Z
      /\ decode enc (-32768) = NaN).
Proof.
  intros enc. split.
  - intros v Hcell Hv. split.
    + set (q := v * inject_Z scale_multiplier).
      assert (Hq : Qabs q < 32767.5).
      { subst q. change (inject_Z scale_multiplier) with 10.
        apply Qabs_Qlt_condition in Hv. apply Qabs_Qlt_condition. split; lra. }
      pose proof (rint_in_range q Hq) as Hr.
      pose proof (rint_close q) as Hc.
      exists (rint q), (inject_Z (rint q) * (1 / inject_Z scale_multiplier) + 0).
      repeat split.
      * unfold scaled_int16. rewrite cell_amap, Hcell.
        cbn [fmap option_fmap option_map].
        cbn [scaled_float]. fold q. f_equal. apply to_int16_in_range. lia.
      * unfold decode. cbn [enc encode_values snd missing scale offset].
        unfold missing_sentinel.
        replace (rint q =? -32768)%Z with false by (symmetry; apply Z.eqb_neq; lia).
        reflexivity.
      * change (inject_Z scale_multiplier) with 10.
        apply Qabs_Qle_condition in Hc. apply Qabs_Qle_condition.
        assert (Eq : q == v * 10) by reflexivity. clearbody q.
        change (1 / 10) with (1 # 10).
        split; lra.
    + intros Hf. destruct (quantize_float32 v Hf Hv) as [Hr Hc].
      set (raw := to_int16 (scaled_float32 (Val v))) in *.
      exists (inject_Z raw * (1 / inject_Z scale_multiplier) + 0). split.
      * unfold decode. cbn [enc encode_values snd missing scale offset].
        unfold missing_sentinel.
        replace (raw =? -32768)%Z with false by (symmetry; apply Z.eqb_neq; lia).
        reflexivity.
      * change (inject_Z scale_multiplier) with 10.
        apply Qabs_Qle_condition in Hc. apply Qabs_Qle_condition.
        change (1 / 10) with (1 # 10).
        split; lra.
  - intros Hcell. split; [|split; reflexivity].
    unfold scaled_int16. now rewrite cell_amap, Hcell.
Qed.

Lemma quantization_round_trip_witness :
  (exists (raw : Z) (w : Q),
    cell (scaled_int16 (Mat 2 [[Val 1.25; NaN]])) 0 0 = Some raw
    /\ decode (snd (encode_values (Mat 2 [[Val 1.25; NaN]]))) raw = Val w
    /\ Qabs (w - 1.25) <= 0.0501)
  /\ (exists w : Q,
        decode (snd (encode_values (Mat 2 [[Val 1.25; NaN]])))
          (to_int16 (scaled_float32 (Val 1.25))) = Val w
        /\ Qabs (w - 1.25) <= 0.0501).
Proof.
  destruct (proj1 (quantization_round_trip (Mat 2 [[Val 1.25; NaN]]) 0 0) 1.25
              eq_refl eq_refl) as [Hexact Hfloat].
  split; [exact Hexact|].
  apply Hfloat. exists 5%Z, (-2)%Z. split; [reflexivity|]. split; [lia | reflexivity].
Defined.

(** C1, as the claim states it, fails in two ways.  Between 3276.75 and
    3276.8: the sample 3276.75 is below the stated limit; ten times it is
    32767.5, which [np.rint] rounds to the even 32768, one past the largest
    int16.  The cast wraps it to -32768, the missing sentinel, so the sample
    decodes to "no data".  The same happens at -3276.75.  At 3276.796875 no
    int16 at all decodes to within 0.05 of the sample, whatever the cast
    does.  And the bound 0.05 itself: the float32 nearest to 0.35 lies just
    below 0.35, its float32 product with ten is exactly 3.5, [np.rint]
    rounds that to the even 4, and 0.4 is further than 0.05 from the
    sample. *)
Lemma quantization_round_trip_counterexample :
  Qabs 3276.75 < 3276.8
  /\ scaled_float (Val 3276.75) = 32768%Z
  /\ cell (scaled_int16 (Mat 1 [[Val 3276.75]])) 0 0 = Some (-32768)%Z
  /\ decode (snd (encode_values (Mat 1 [[Val 3276.75]]))) (-32768) = NaN
  /\ cell (scaled_int16 (Mat 1 [[Val (-3276.75)]])) 0 0 = Some (-32768)%Z
  /\ (Qabs 3276.796875 < 3276.8
      /\ forall raw : Z, (-32768 <= raw <= 32767)%Z ->
           ~ Qabs (inject_Z raw * (1 / 10) + 0 - 3276.796875) <= 0.05)
  /\ (f32 f32_0_35
      /\ Qabs f32_0_35 < 3276.8
      /\ round32 (f32_0_35 * 10) == 3.5
      /\ to_int16 (scaled_float32 (Val f32_0_35)) = 4%Z
      /\ decode (snd (encode_values (Mat 1 [[Val f32_0_35]]))) 4 = Val 0.4
      /\ ~ Qabs (0.4 - f32_0_35) <= 0.05).
Proof.
  split; [reflexivity|]. split; [reflexivity|]. split; [reflexivity|].
  split; [reflexivity|]. split; [reflexivity|]. split; [split; [reflexivity|]|].
  - intros raw Hraw Habs. apply Qabs_Qle_condition in Habs.
    assert (H : inject_Z raw <= inject_Z 32767) by (rewrite <- Zle_Qle; lia).
    change (inject_Z 32767) with 32767 in H. change (1 / 10) with (1 # 10) in Habs. lra.
  - split; [exists 11744051%Z, (-25)%Z; split; [reflexivity|]; split; [lia | reflexivity]|].
    split; [reflexivity|]. split; [reflexivity|]. split; [reflexivity|].
    split; [reflexivity|].
    intros Habs. apply Qabs_Qle_condition in Habs. unfold f32_0_35 in Habs. lra.
Qed.

(** ** Extrema *)

Lemma size_ravel {A : Type} (a : ndarray A) : wf a -> size a = length (ravel a).
Proof.
  destruct a as [v|c rows]; cbn [wf size ravel]; [reflexivity|].
  induction 1 as [|r rows Hr _ IH]; [reflexivity|].
  cbn [concat length]. rewrite length_app, <- IH, Hr. lia.
Qed.

Lemma sample_leb_refl (a : sample) : a <> NaN -> sample_leb a a = true.
Proof. destruct a; try easy. intros _. apply Qle_bool_iff, Qle_refl. Qed.

Lemma sample_leb_trans (a b c : sample) :
  sample_leb a b = true -> sample_leb b c = true -> sample_leb a c = true.
Proof.
  destruct a, b, c; cbn; try easy.
  rewrite !Qle_bool_iff. apply Qle_trans.
Qed.

(** A reduction by an operation that returns one of its operands, the one
    that [R] puts first, and that lets a NaN give way. *)
Section Reduce.
Variable f : sample -> sample -> sample.
Variable R : sample -> sample -> Prop.
Hypothesis R_refl : forall a, a <> NaN -> R a a.
Hypothesis R_trans : forall a b c, R a b -> R b c -> R a c.
Hypothesis f_either : forall a b, f a b = a \/ f a b = b.
Hypothesis f_nan : forall a b, f a b = NaN -> a = NaN /\ b = NaN.
Hypothesis f_l : forall a b, a <> NaN -> R (f a b) a.
Hypothesis f_r : forall a b, b <> NaN -> R (f a b) b.

Lemma fold_reduce (l : list sample) (acc : sample) :
  (fold_left f l acc = acc \/ fold_left f l acc ∈ l)
  /\ (forall s, s = acc \/ s ∈ l -> s <> NaN -> R (fold_left f l acc) s).
Proof.
  revert acc. induction l as [|s0 l IH]; intros acc; cbn [fold_left].
  - split; [now left|]. intros s [-> | Hs] Hn; [now apply R_refl | inversion Hs].
  - destruct (IH (f acc s0)) as [Hin Hle]. split.
    + destruct Hin as [-> | Hin]; [|right; now apply elem_of_cons; right].
      destruct (f_either acc s0) as [-> | ->]; [now left|].
      right. apply elem_of_cons. now left.
    + intros s Hs Hn.
      assert (Hacc : forall t, t <> NaN -> (t = acc \/ t = s0) ->
                               R (fold_left f l (f acc s0)) t).
      { intros t Ht Hcase.
        assert (Hf : f acc s0 <> NaN).
        { intros E. apply f_nan in E as [-> ->]. now destruct Hcase as [-> | ->]. }
        apply R_trans with (f acc s0); [apply Hle; auto|].
        destruct Hcase as [-> | ->]; [now apply f_l | now apply f_r]. }
      destruct Hs as [-> | Hs]; [now apply Hacc; auto|].
      apply elem_of_cons in Hs as [-> | Hs]; [now apply Hacc; auto | now apply Hle; auto].
Qed.

Lemma nan_reduce_spec (l : list sample) :
  (nan_reduce f l = NaN \/ nan_reduce f l ∈ l)
  /\ (forall s, s ∈ l -> s <> NaN -> R (nan_reduce f l) s).
Proof.
  unfold nan_reduce. destruct (fold_reduce l NaN) as [Hin Hle]. split; [exact Hin|].
  intros s Hs Hn. apply Hle; auto.
Qed.
End Reduce.

Lemma nanmin_spec (values : ndarray sample) :
  wf values ->
  exists lo, or_nan (nanmin values) = Ok lo
             /\ (lo = NaN \/ lo ∈ ravel values)
             /\ (forall s, s ∈ ravel values -> s <> NaN -> sample_leb lo s = true).
Proof.
  intros Hwf. unfold nanmin. rewrite (size_ravel _ Hwf).
  destruct (ravel values) as [|s l] eqn:E.
  - exists NaN. repeat split; [now left|]. intros s Hs. inversion Hs.
  - cbn [length Nat.eqb or_nan]. eexists. split; [reflexivity|].
    apply (nan_reduce_spec fmin (fun a b => sample_leb a b = true)).
    + apply sample_leb_refl.
    + apply sample_leb_trans.
    + intros [] []; cbn; auto. destruct (Qlt_le_dec _ _); auto.
    + intros [] []; cbn; try easy.
    + intros [] [] Hn; cbn; try easy; try apply Qle_bool_iff; try apply Qle_refl.
      destruct (Qlt_le_dec _ _); [now apply Qlt_le_weak | apply Qle_refl].
    + intros [] [] Hn; cbn; try easy; try apply Qle_bool_iff; try apply Qle_refl.
      destruct (Qlt_le_dec _ _); [apply Qle_refl | assumption].
Qed.

Lemma nanmax_spec (values : ndarray sample) :
  wf values ->
  exists hi, or_nan (nanmax values) = Ok hi
             /\ (hi = NaN \/ hi ∈ ravel values)
             /\ (forall s, s ∈ ravel values -> s <> NaN -> sample_leb s hi = true).
Proof.
  intros Hwf. unfold nanmax. rewrite (size_ravel _ Hwf).
  destruct (ravel values) as [|s l] eqn:E.
  - exists NaN. repeat split; [now left|]. intros s Hs. inversion Hs.
  - cbn [length Nat.eqb or_nan]. eexists. split; [reflexivity|].
    apply (nan_reduce_spec fmax (fun a b => sample_leb b a = true)).
    + apply sample_leb_refl.
    + intros a b c H1 H2. now apply sample_leb_trans with b.
    + intros [] []; cbn; auto. destruct (Qlt_le_dec _ _); auto.
    + intros [] []; cbn; try easy.
    + intros [] [] Hn; cbn; try easy; try apply Qle_bool_iff; try apply Qle_refl.
      destruct (Qlt_le_dec _ _); [now apply Qlt_le_weak | apply Qle_refl].
    + intros [] [] Hn; cbn; try easy; try apply Qle_bool_iff; try apply Qle_refl.
      destruct (Qlt_le_dec _ _); [apply Qle_refl | assumption].
Qed.

Lemma elem_of_present_samples (values : ndarray sample) (q : Q) :
  q ∈ present_samples values <-> Val q ∈ ravel values.
Proof.
  unfold present_samples. rewrite list_elem_of_omap. split.
  - intros (s & Hs & E). destruct s; try discriminate. now injection E as ->.
  - intros H. now exists (Val q).
Qed.

Lemma present_samples_nil (values : ndarray sample) :
  present_samples values = [] <-> forall q, Val q ∉ ravel values.
Proof.
  split.
  - intros E q Hq. apply elem_of_present_samples in Hq. rewrite E in Hq. inversion Hq.
  - intros H. destruct (present_samples values) as [|q l] eqn:E; [reflexivity|].
    exfalso. apply (H q), elem_of_present_samples. rewrite E. now left.
Qed.

(** The reduction result [lo] of [np.nanmin] on a grid without a negative
    infinity, read through [math.isfinite]. *)
Lemma least_present (values : ndarray sample) (lo : sample) :
  lo = NaN \/ lo ∈ ravel values ->
  (forall s, s ∈ ravel values -> s <> NaN -> sample_leb lo s = true) ->
  NegInf ∉ ravel values ->
  (finite_or_none lo = None <-> present_samples values = [])
  /\ (forall x, finite_or_none lo = Some x ->
        x ∈ present_samples values
        /\ forall q, q ∈ present_samples values -> x <= q).
Proof.
  intros Hin Hle Hninf.
  assert (Hval : forall q, Val q ∈ ravel values -> sample_leb lo (Val q) = true)
    by (intros q Hq; now apply Hle).
  destruct lo as [|m| |]; cbn [finite_or_none].
  - split; [|discriminate]. split; [|reflexivity]. intros _.
    apply present_samples_nil. intros q Hq. now specialize (Hval q Hq).
  - destruct Hin as [|Hin]; [discriminate|]. split.
    + split; [discriminate|]. intros E.
      apply elem_of_present_samples in Hin. rewrite E in Hin. inversion Hin.
    + intros x [= <-]. split; [now apply elem_of_present_samples|].
      intros q Hq. apply elem_of_present_samples, Hval in Hq.
      now apply Qle_bool_iff.
  - split; [|discriminate]. split; [|reflexivity]. intros _.
    apply present_samples_nil. intros q Hq. now specialize (Hval q Hq).
  - destruct Hin as [|Hin]; [discriminate | contradiction].
Qed.

Lemma greatest_present (values : ndarray sample) (hi : sample) :
  hi = NaN \/ hi ∈ ravel values ->
  (forall s, s ∈ ravel values -> s <> NaN -> sample_leb s hi = true) ->
  PosInf ∉ ravel values ->
  (finite_or_none hi = None <-> present_samples values = [])
  /\ (forall x, finite_or_none hi = Some x ->
        x ∈ present_samples values
        /\ forall q, q ∈ present_samples values -> q <= x).
Proof.
  intros Hin Hle Hninf.
  assert (Hval : forall q, Val q ∈ ravel values -> sample_leb (Val q) hi = true)
    by (intros q Hq; now apply Hle).
  destruct hi as [|m| |]; cbn [finite_or_none].
  - split; [|discriminate]. split; [|reflexivity]. intros _.
    apply present_samples_nil. intros q Hq. now specialize (Hval q Hq).
  - destruct Hin as [|Hin]; [discriminate|]. split.
    + split; [discriminate|]. intros E.
      apply elem_of_present_samples in Hin. rewrite E in Hin. inversion Hin.
    + intros x [= <-]. split; [now apply elem_of_present_samples|].
      intros q Hq. apply elem_of_present_samples, Hval in Hq.
      now apply Qle_bool_iff.
  - destruct Hin as [|Hin]; [discriminate | contradiction].
  - split; [|discriminate]. split; [|reflexivity]. intros _.
    apply present_samples_nil. intros q Hq. now specialize (Hval q Hq).
Qed.

(** The second pass of [normalise_values] blanks a negative infinity, so a
    normalised grid holds none. *)
Lemma normalise_values_no_neginf
    (values : ndarray sample) (missing_value : option sample) :
  NegInf ∉ ravel (normalise_values values missing_value).
Proof.
  unfold normalise_values. rewrite ravel_amap. intros H.
  apply list_elem_of_fmap in H as (s & E & _).
  destruct (sample_leb s (Val (-100))) eqn:Hs; [discriminate|].
  subst s. discriminate.
Qed.

(** C6, as the code has it.  [np.nanmin] and [np.nanmax] skip "no data" but
    not the infinities, and [math.isfinite] turns an infinite extremum into
    an absent field.  So [maxValue] is absent on a grid that holds a positive
    infinity and [minValue] on one that holds a negative infinity, whatever
    else the grid holds.  On a grid without a negative infinity, which every
    normalised grid is, [minValue] is the least of the finite samples and is
    absent exactly when there is none; on a grid without a positive infinity
    [maxValue] is the greatest of them and is absent exactly when there is
    none. *)
Theorem min_max_extrema
    (dataset : Dataset) (latitudes longitudes : ndarray Q) (values : ndarray sample)
    (p : payload) :
  wf values ->
  build_payload dataset latitudes longitudes values = Ok p ->
  (PosInf ∈ ravel values -> maxValue p = None)
  /\ (NegInf ∈ ravel values -> minValue p = None)
  /\ (NegInf ∉ ravel values ->
      (minValue p = None <-> present_samples values = [])
      /\ (forall lo, minValue p = Some lo ->
            lo ∈ present_samples values
            /\ forall q, q ∈ present_samples values -> lo <= q))
  /\ (PosInf ∉ ravel values ->
      (maxValue p = None <-> present_samples values = [])
      /\ (forall hi, maxValue p = Some hi ->
            hi ∈ present_samples values
            /\ forall q, q ∈ present_samples values -> q <= hi)).
Proof.
  intros Hwf Hp.
  apply build_payload_inv in Hp
    as (_ & _ & _ & (lo & Elo & ->) & (hi & Ehi & ->) & _).
  destruct (nanmin_spec values Hwf) as (lo' & Elo' & Hlo1 & Hlo2).
  destruct (nanmax_spec values Hwf) as (hi' & Ehi' & Hhi1 & Hhi2).
  assert (lo' = lo) by congruence. assert (hi' = hi) by congruence. subst lo' hi'.
  split; [|split; [|split]].
  - intros Hinf. assert (H := Hhi2 PosInf Hinf ltac:(discriminate)).
    now destruct hi.
  - intros Hinf. assert (H := Hlo2 NegInf Hinf ltac:(discriminate)).
    now destruct lo.
  - now apply least_present.
  - now apply greatest_present.
Qed.

Lemma min_max_extrema_witness :
  1 ∈ present_samples scenario_a_grid
  /\ forall q, q ∈ present_samples scenario_a_grid -> 1 <= q.
Proof.
  assert (Hwf : wf scenario_a_grid) by (cbn; repeat constructor).
  assert (Hrun : build_payload scenario_a (Vec [20; 10]) (Vec [-160; -170])
                   scenario_a_grid = Ok scenario_a_payload)
    by (vm_compute; reflexivity).
  assert (Hninf : NegInf ∉ ravel scenario_a_grid).
  { intros H. repeat (apply elem_of_cons in H as [H|H]; [discriminate|]).
    inversion H. }
  exact (proj2 (proj1 (proj2 (proj2 (min_max_extrema _ _ _ _ _ Hwf Hrun))) Hninf)
           1 eq_refl).
Defined.

(** C6, as the claim states it, fails on a grid that holds an infinite
    sample.  The normaliser leaves a positive infinity in place; the grid of
    [scenario_inf] keeps the finite sample 1 beside it, and the payload has
    [minValue] 1 and no [maxValue], although a sample that is not "no data"
    exists and the finite maximum is 1. *)
Lemma min_max_extrema_counterexample :
  normalised_inputs scenario_inf
  = Ok (Vec [20], Vec [-160; -150], Mat 2 [[Val 1; PosInf]])
  /\ present_samples (Mat 2 [[Val 1; PosInf]]) = [1]
  /\ exists p, process_grib scenario_inf = Ok p
               /\ minValue p = Some 1
               /\ maxValue p = None.
Proof.
  split; [vm_compute; reflexivity|]. split; [reflexivity|].
  eexists. split; [vm_compute; reflexivity|]. split; reflexivity.
Qed.

(** ** The encoded buffer *)

Section Base64.
Open Scope Z_scope.

Lemma land_shiftl_small (x y n : Z) :
  (0 <= n -> 0 <= y < 2 ^ n -> Z.land (Z.shiftl x n) y = 0)%Z.
Proof.
  intros Hn Hy. apply Z.bits_inj'. intros i Hi.
  rewrite Z.land_spec, Z.bits_0.
  destruct (Z.lt_ge_cases i n) as [Hlt|Hge].
  - now rewrite Z.shiftl_spec_low.
  - destruct (Z.eq_dec y 0) as [->|Hne].
    + now rewrite Z.bits_0, andb_false_r.
    + rewrite (Z.bits_above_log2 y i), andb_false_r; [reflexivity | lia |].
      apply Z.lt_le_trans with n; [|assumption]. apply Z.log2_lt_pow2; lia.
Qed.

Lemma shiftl_lor_add (x y n : Z) :
  (0 <= n -> 0 <= y < 2 ^ n -> Z.lor (Z.shiftl x n) y = x * 2 ^ n + y)%Z.
Proof.
  intros Hn Hy. pose proof (Z.add_lor_land (Z.shiftl x n) y) as H.
  rewrite land_shiftl_small in H by assumption.
  rewrite Z.shiftl_mul_pow2 in * by assumption. lia.
Qed.

Lemma land_low (x n : Z) (mask : Z) :
  (0 <= n)%Z -> mask = Z.ones n -> Z.land x mask = (x mod 2 ^ n)%Z.
Proof. intros Hn ->. now apply Z.land_ones. Qed.

Lemma sextets_arith (g : Z) :
    sextet g 0 = (g / 262144) mod 64
    /\ sextet g 1 = (g / 4096) mod 64
    /\ sextet g 2 = (g / 64) mod 64
    /\ sextet g 3 = g mod 64.
  Proof.
    unfold sextet. cbn [Z.mul Z.sub Z.add Z.opp Z.pos_sub Pos.mul Pos.add].
    rewrite !Z.shiftr_div_pow2, !(land_low _ 6 63) by (reflexivity || lia).
    change (2 ^ 18) with 262144. change (2 ^ 12) with 4096.
    change (2 ^ 6) with 64. change (2 ^ 0) with 1. rewrite Z.div_1_r. auto.
  Qed.

Lemma group_bytes_arith (g : Z) :
    group_byte g 0 = (g / 65536) mod 256
    /\ group_byte g 1 = (g / 256) mod 256
    /\ group_byte g 2 = g mod 256.
  Proof.
    unfold group_byte. cbn [Z.mul Z.sub Z.add Z.opp Z.pos_sub Pos.mul Pos.add].
    rewrite !Z.shiftr_div_pow2, !(land_low _ 8 255) by (reflexivity || lia).
    change (2 ^ 16) with 65536. change (2 ^ 8) with 256.
    change (2 ^ 0) with 1. rewrite Z.div_1_r. auto.
  Qed.

Lemma group24_arith (a b c : Z) :
    byte_ok b -> byte_ok c -> group24 a b c = a * 65536 + b * 256 + c.
  Proof.
    unfold byte_ok, group24. intros Hb Hc.
    rewrite (shiftl_lor_add b c 8) by (change (2 ^ 8) with 256; lia).
    rewrite (shiftl_lor_add a _ 16) by (change (2 ^ 8) with 256; change (2 ^ 16) with 65536; lia).
    change (2 ^ 8) with 256. change (2 ^ 16) with 65536. lia.
  Qed.

Lemma regroup_arith (s0 s1 s2 s3 : Z) :
    0 <= s1 < 64 -> 0 <= s2 < 64 -> 0 <= s3 < 64 ->
    regroup s0 s1 s2 s3 = s0 * 262144 + s1 * 4096 + s2 * 64 + s3.
  Proof.
    unfold regroup. intros H1 H2 H3.
    rewrite (shiftl_lor_add s2 s3 6) by (change (2 ^ 6) with 64; lia).
    rewrite (shiftl_lor_add s1 _ 12)
      by (change (2 ^ 6) with 64; change (2 ^ 12) with 4096; lia).
    rewrite (shiftl_lor_add s0 _ 18)
      by (change (2 ^ 6) with 64; change (2 ^ 12) with 4096;
          change (2 ^ 18) with 262144; lia).
    change (2 ^ 6) with 64. change (2 ^ 12) with 4096. change (2 ^ 18) with 262144.
    lia.
  Qed.

  (** Three bytes cut into four sextets and put together again. *)
Lemma quantum_round_trip (a b c : Z) :
    byte_ok a -> byte_ok b -> byte_ok c ->
    let g := group24 a b c in
    let g' := regroup (sextet g 0) (sextet g 1) (sextet g 2) (sextet g 3) in
    (0 <= sextet g 0 < 64 /\ 0 <= sextet g 1 < 64
     /\ 0 <= sextet g 2 < 64 /\ 0 <= sextet g 3 < 64)
    /\ group_byte g' 0 = a /\ group_byte g' 1 = b /\ group_byte g' 2 = c.
  Proof.
    intros Ha Hb Hc g g'.
    destruct (sextets_arith g) as (E0 & E1 & E2 & E3).
    assert (Hg : g = a * 65536 + b * 256 + c) by now apply group24_arith.
    assert (Hs : 0 <= sextet g 0 < 64 /\ 0 <= sextet g 1 < 64
                 /\ 0 <= sextet g 2 < 64 /\ 0 <= sextet g 3 < 64).
    { rewrite E0, E1, E2, E3. repeat split; apply Z.mod_pos_bound; lia. }
    split; [exact Hs|].
    assert (Hg' : g' = g).
    { subst g'. rewrite regroup_arith by tauto. rewrite E0, E1, E2, E3.
      unfold byte_ok in *. clear -Hg Ha Hb Hc.
      Z.to_euclidean_division_equations; lia. }
    rewrite Hg'. destruct (group_bytes_arith g) as (-> & -> & ->).
    unfold byte_ok in *. rewrite Hg.
    repeat split; Z.to_euclidean_division_equations; lia.
  Qed.

Lemma sextet_padding (a b : Z) :
    byte_ok a -> byte_ok b -> sextet (group24 a b 0) 3 = 0.
  Proof.
    intros Ha Hb. destruct (sextets_arith (group24 a b 0)) as (_ & _ & _ & ->).
    rewrite group24_arith by (unfold byte_ok; lia || assumption).
    unfold byte_ok in *. Z.to_euclidean_division_equations; lia.
  Qed.

Lemma sextet_padding2 (a : Z) :
    byte_ok a -> sextet (group24 a 0 0) 2 = 0.
  Proof.
    intros Ha. destruct (sextets_arith (group24 a 0 0)) as (_ & _ & -> & _).
    rewrite group24_arith by (unfold byte_ok; lia).
    unfold byte_ok in *. Z.to_euclidean_division_equations; lia.
  Qed.
End Base64.

(** Every sextet has its own character of the alphabet, and none of them is
    the padding character. *)
Lemma b64_index_char (s : Z) :
  (0 <= s < 64)%Z ->
  b64_index (b64_char s) = Some s /\ is_pad (b64_char s) = false.
Proof.
  intros Hs.
  assert (Htable : forallb (fun k =>
            match b64_index (b64_char (Z.of_nat k)) with
            | Some s' => (s' =? Z.of_nat k)%Z
            | None => false
            end && negb (is_pad (b64_char (Z.of_nat k)))) (seq 0 64) = true)
    by (vm_compute; reflexivity).
  rewrite forallb_forall in Htable.
  specialize (Htable (Z.to_nat s)). rewrite Z2Nat.id in Htable by lia.
  apply andb_true_iff in Htable as [H1 H2]; [|apply in_seq; lia].
  destruct (b64_index (b64_char s)) as [s'|]; [|discriminate].
  apply Z.eqb_eq in H1. subst s'. split; [reflexivity|].
  now apply negb_true_iff.
Qed.

Lemma list_ind3 {A : Type} (P : list A -> Prop) :
  P [] -> (forall a, P [a]) -> (forall a b, P [a; b]) ->
  (forall a b c l, P l -> P (a :: b :: c :: l)) ->
  forall l, P l.
Proof.
  intros H0 H1 H2 H3 l.
  assert (H : forall n l, (length l <= n)%nat -> P l).
  { clear l. induction n as [|n IH]; intros l Hl.
    - destruct l; [exact H0 | cbn in Hl; lia].
    - destruct l as [|a [|b [|c l]]]; auto.
      apply H3, IH. cbn [length] in Hl. lia. }
  now apply (H (length l)).
Qed.

(** What [b64encode] writes, [b64decode] reads back. *)
Lemma b64decode_encode (bytes : list Z) :
  Forall byte_ok bytes -> b64decode (b64encode bytes) = Some bytes.
Proof.
  assert (Hzero : byte_ok 0) by (unfold byte_ok; lia).
  induction bytes as [|a|a b|a b c l IH] using list_ind3; intros Hall.
  - reflexivity.
  - apply Forall_cons in Hall as [Ha _].
    destruct (quantum_round_trip a 0 0 Ha Hzero Hzero) as ((S0 & S1 & _) & B0 & _).
    cbn [b64encode b64decode].
    destruct (b64_index_char _ S0) as [-> _], (b64_index_char _ S1) as [-> _].
    cbn. rewrite sextet_padding2, sextet_padding in B0 by assumption.
    now rewrite B0.
  - apply Forall_cons in Hall as [Ha Hall]. apply Forall_cons in Hall as [Hb _].
    destruct (quantum_round_trip a b 0 Ha Hb Hzero)
      as ((S0 & S1 & S2 & _) & B0 & B1 & _).
    cbn [b64encode b64decode].
    destruct (b64_index_char _ S0) as [-> _], (b64_index_char _ S1) as [-> _],
      (b64_index_char _ S2) as [-> ->].
    cbn. rewrite sextet_padding in B0, B1 by assumption.
    now rewrite B0, B1.
  - apply Forall_cons in Hall as [Ha Hall]. apply Forall_cons in Hall as [Hb Hall].
    apply Forall_cons in Hall as [Hc Hall].
    destruct (quantum_round_trip a b c Ha Hb Hc)
      as ((S0 & S1 & S2 & S3) & B0 & B1 & B2).
    cbn [b64encode b64decode].
    destruct (b64_index_char _ S0) as [-> _], (b64_index_char _ S1) as [-> _],
      (b64_index_char _ S2) as [-> ->], (b64_index_char _ S3) as [-> ->].
    cbn [mbind option_bind]. rewrite (IH Hall). cbn [mbind option_bind].
    now rewrite B0, B1, B2.
Qed.

Section Int16.
Open Scope Z_scope.

Lemma to_int16_wrap (z : Z) :
    -2147483648 <= z < 2147483648 ->
    to_int16 z = (z + 32768) mod 65536 - 32768.
  Proof.
    intros H. unfold to_int16.
    now replace ((-2147483648 <=? z) && (z <? 2147483648)) with true
      by (symmetry; apply andb_true_iff; split; [apply Z.leb_le | apply Z.ltb_lt]; lia).
  Qed.

Lemma to_int16_range (z : Z) : -32768 <= to_int16 z <= 32767.
  Proof.
    unfold to_int16. destruct ((-2147483648 <=? z) && (z <? 2147483648)); [|lia].
    Z.to_euclidean_division_equations; lia.
  Qed.

Lemma int16_bytes_arith (z : Z) :
    int16_bytes z = [(z mod 65536) mod 256; (z mod 65536) / 256].
  Proof.
    unfold int16_bytes. rewrite (land_low _ 8 255), Z.shiftr_div_pow2 by (reflexivity || lia).
    reflexivity.
  Qed.

Lemma int16_bytes_ok (z : Z) : Forall byte_ok (int16_bytes z).
  Proof.
    rewrite int16_bytes_arith. unfold byte_ok.
    repeat constructor; Z.to_euclidean_division_equations; lia.
  Qed.

Lemma read_int16s_bytes (l : list Z) :
    Forall (fun z => -32768 <= z <= 32767) l ->
    read_int16s (flat_map int16_bytes l) = l.
  Proof.
    induction 1 as [|z l Hz _ IH]; [reflexivity|].
    cbn [flat_map]. rewrite int16_bytes_arith. cbn [app read_int16s]. rewrite IH.
    f_equal. rewrite to_int16_wrap by (Z.to_euclidean_division_equations; lia).
    Z.to_euclidean_division_equations; lia.
  Qed.
End Int16.

Lemma tobytes_ok (a : ndarray Z) : Forall byte_ok (tobytes a).
Proof.
  unfold tobytes. induction (ravel a) as [|z l IH]; [constructor|].
  cbn [flat_map]. apply Forall_app. split; [apply int16_bytes_ok | exact IH].
Qed.

Lemma tobytes_length (a : ndarray Z) : length (tobytes a) = (2 * length (ravel a))%nat.
Proof.
  unfold tobytes. induction (ravel a) as [|z l IH]; [reflexivity|].
  cbn [flat_map]. rewrite length_app, IH. cbn [int16_bytes length]. lia.
Qed.

(** C10. The data string of the payload is valid base64.  Its bytes are
    two per cell of the grid, [2 * rows * cols] in all, and read two at a
    time they are the int16 values of the cells in row-major order; [rows]
    and [cols] are the shape of the grid. *)
Theorem encoded_buffer_matches_grid
    (dataset : Dataset) (latitudes longitudes : ndarray Q) (values : ndarray sample)
    (p : payload) :
  wf values ->
  build_payload dataset latitudes longitudes values = Ok p ->
  shape2 values = Ok (rows p, cols p)
  /\ length (ravel values) = (rows p * cols p)%nat
  /\ exists bytes : list Z,
       b64decode (data p) = Some bytes
       /\ Forall byte_ok bytes
       /\ length bytes = (2 * rows p * cols p)%nat
       /\ read_int16s bytes = map (fun v => to_int16 (scaled_float v)) (ravel values).
Proof.
  intros Hwf Hp.
  apply build_payload_inv in Hp as (Hshape & _ & _ & _ & _ & _ & Hdata).
  assert (Hlen : length (ravel values) = (rows p * cols p)%nat).
  { rewrite <- size_ravel by assumption.
    destruct values as [v|c rs]; [discriminate|]. cbn [shape2 size] in *. congruence. }
  repeat split; [exact Hshape | exact Hlen |].
  exists (tobytes (scaled_int16 values)). repeat split.
  - rewrite Hdata. cbn [encode_values fst]. apply b64decode_encode, tobytes_ok.
  - apply tobytes_ok.
  - rewrite tobytes_length. unfold scaled_int16.
    rewrite ravel_amap, length_map, Hlen. lia.
  - unfold tobytes, scaled_int16. rewrite ravel_amap. apply read_int16s_bytes.
    apply Forall_map, Forall_forall. intros v _. apply to_int16_range.
Qed.

Lemma encoded_buffer_matches_grid_witness :
  exists bytes : list Z,
    b64decode (data scenario_a_payload) = Some bytes
    /\ Forall byte_ok bytes
    /\ length bytes = (2 * rows scenario_a_payload * cols scenario_a_payload)%nat
    /\ read_int16s bytes
       = map (fun v => to_int16 (scaled_float v)) (ravel scenario_a_grid).
Proof.
  refine (proj2 (proj2 (encoded_buffer_matches_grid scenario_a
            (Vec [20; 10]) (Vec [-160; -170]) scenario_a_grid scenario_a_payload _ _))).
  - cbn. repeat constructor.
  - vm_compute. reflexivity.
Defined.

(** * Further properties of the worker *)

(** ** Element-wise passes *)

Section ElementwiseMore.
Context {A B C : Type}.

Lemma amap_amap (f : A -> B) (g : B -> C) (a : ndarray A) :
  amap g (amap f a) = amap (fun x => g (f x)) a.
Proof.
  destruct a as [v|c rows]; cbn [amap]; f_equal.
  - apply map_map.
  - rewrite map_map. apply map_ext. intros r. apply map_map.
Qed.

Lemma amap_ext (f g : A -> B) (a : ndarray A) :
  (forall x, f x = g x) -> amap f a = amap g a.
Proof.
  intros H. destruct a as [v|c rows]; cbn [amap]; f_equal.
  - now apply map_ext.
  - apply map_ext. intros r. now apply map_ext.
Qed.

Lemma amap_flipud (f : A -> B) (a : ndarray A) :
  amap f (flipud a) = flipud (amap f a).
Proof.
  destruct a as [v|c rows]; cbn [amap flipud]; f_equal.
  - change (map f (reverse v)) with (f <$> reverse v). now rewrite fmap_reverse.
  - change (map (map f) (reverse rows)) with (map f <$> reverse rows).
    now rewrite fmap_reverse.
Qed.
End ElementwiseMore.

Lemma normalise_values_amap (values : ndarray sample) (missing_value : option sample) :
  normalise_values values missing_value = amap (normalise_sample missing_value) values.
Proof.
  unfold normalise_values, normalise_sample.
  destruct missing_value as [m|]; [now rewrite amap_amap | reflexivity].
Qed.

Lemma normalise_sample_number (missing_value : option sample) (s : sample) (v : Q) :
  normalise_sample missing_value s = Val v <->
  s = Val v /\ -100 < v /\ (forall m, missing_value = Some (Val m) -> ~ v == m).
Proof.
  unfold normalise_sample. destruct s as [|x| |].
  1, 3, 4: split; [|intros [[=] _]]; destruct missing_value as [[]|]; cbn; discriminate.
  - assert (Hle : forall y, (if sample_leb (Val x) (Val (-100)) then NaN else Val x) = Val y
                            <-> x = y /\ -100 < x).
    { intros y. cbn [sample_leb]. destruct (Qle_bool x (-100)) eqn:E.
      - split; [discriminate|]. intros [_ H]. apply Qle_bool_iff in E.
        exfalso. revert H. now apply Qle_not_lt.
      - split.
        + intros [= <-]. split; [reflexivity|]. apply Qnot_le_lt. intros H.
          apply Qle_bool_iff in H. congruence.
        + now intros [-> _]. }
    destruct missing_value as [[|m| |]|].
    1, 3, 4: cbn [sample_eqb]; rewrite Hle; split;
      [intros [<- H]; repeat split; [assumption | discriminate]
      |intros ([= <-] & H & _); auto].
    + cbn [sample_eqb]. destruct (Qeq_bool x m) eqn:E.
      * split; [discriminate|]. intros ([= <-] & _ & H).
        apply Qeq_bool_iff in E. exfalso. now apply (H m).
      * rewrite Hle. split.
        -- intros [<- H]. repeat split; [assumption|].
           intros m' [= <-] Heq. apply Qeq_bool_iff in Heq. congruence.
        -- intros ([= <-] & H & _). auto.
    + rewrite Hle. split.
      * intros [<- H]. repeat split; [assumption | discriminate].
      * intros ([= <-] & H & _). auto.
Qed.

Lemma normalise_sample_nan (missing_value : option sample) :
  normalise_sample missing_value NaN = NaN.
Proof. unfold normalise_sample. now destruct missing_value. Qed.

(** The normalizer blanks a sample or leaves it as it is. *)
Lemma normalise_sample_keeps (missing_value : option sample) (s : sample) :
  normalise_sample missing_value s = NaN \/ normalise_sample missing_value s = s.
Proof.
  unfold normalise_sample. destruct missing_value as [m|].
  - destruct (sample_eqb s m); [now left|].
    destruct (sample_leb s (Val (-100))); auto.
  - destruct (sample_leb s (Val (-100))); auto.
Qed.

Lemma cell_elem_of_ravel {A : Type} (a : ndarray A) (i j : nat) (x : A) :
  cell a i j = Some x -> x ∈ ravel a.
Proof.
  destruct a as [v|c rows]; cbn [cell ravel].
  - destruct (Nat.eqb j 0); [|discriminate]. apply list_elem_of_lookup_2.
  - destruct (rows !! i) as [r|] eqn:Er; [|discriminate]. cbn. intros Hx.
    apply list_elem_of_In, in_concat. exists r.
    split; apply list_elem_of_In; eauto using list_elem_of_lookup_2.
Qed.

Lemma f32_integer (k : Z) : (Z.abs k < 16777216)%Z -> f32 (inject_Z k).
Proof.
  intros H. exists k, 0%Z. split; [assumption|]. split; [lia|].
  change (pow2 0) with 1. ring.
Qed.

(** A normalised float32 grid is a float32 grid: the closing
    [astype(np.float32)] has nothing to round. *)
Lemma normalise_values_float32
    (values : ndarray sample) (missing_value : option sample) :
  float32_grid values -> float32_grid (normalise_values values missing_value).
Proof.
  unfold float32_grid. rewrite normalise_values_amap, ravel_amap.
  intros H. apply Forall_map. eapply Forall_impl; [exact H|].
  intros s Hs. cbn beta. now destruct (normalise_sample_keeps missing_value s) as [-> | ->].
Qed.

(** Membership in a list that is written out. *)
Ltac not_listed :=
  let H := fresh in
  intros H; repeat (apply elem_of_cons in H as [H|H]; [discriminate|]); inversion H.

(** A grid of integers of small magnitude is a float32 grid. *)
Ltac float32_integers :=
  unfold float32_grid; cbn [ravel concat app values];
  repeat (apply Forall_cons_2; [first [exact I | apply f32_integer; reflexivity]|]);
  apply Forall_nil_2.

(** X1. On a grid of float32 numbers, with a missing value that is a
    float32 when it is a number, the value normalizer changes no number: a
    cell of its result holds a number exactly when the same cell of its
    argument holds that number, the number is above -100, and it is not the
    declared missing value.  Cells are neither created nor dropped. *)
Theorem normalise_values_cells
    (values : ndarray sample) (missing_value : option sample) (i j : nat) :
  float32_grid values ->
  float32_missing missing_value ->
  (cell (normalise_values values missing_value) i j = None <-> cell values i j = None)
  /\ (forall v : Q,
        cell (normalise_values values missing_value) i j = Some (Val v) <->
        cell values i j = Some (Val v)
        /\ -100 < v
        /\ (forall m, missing_value = Some (Val m) -> ~ v == m)).
Proof.
  intros _ _. rewrite normalise_values_amap, cell_amap. split.
  - destruct (cell values i j); cbn; split; congruence.
  - intros v. destruct (cell values i j) as [s|]; cbn.
    + split.
      * intros [= H]. apply normalise_sample_number in H as (-> & H1 & H2). auto.
      * intros ([= ->] & H1 & H2). f_equal. apply normalise_sample_number. auto.
    + split; [discriminate | now intros [[=] _]].
Qed.

Lemma normalise_values_cells_witness :
  cell (normalise_values (Mat 2 [[Val 55; Val 7]]) (Some (Val 7))) 0 0
  = Some (Val 55).
Proof.
  apply (proj2 (normalise_values_cells (Mat 2 [[Val 55; Val 7]]) (Some (Val 7)) 0 0
                  ltac:(float32_integers) (f32_integer 7 eq_refl)) 55).
  split; [reflexivity|]. split; [reflexivity|].
  intros m [= <-] H. discriminate H.
Defined.

Lemma normalise_sample_idempotent (missing_value : option sample) (s : sample) :
  normalise_sample missing_value (normalise_sample missing_value s)
  = normalise_sample missing_value s.
Proof.
  destruct (normalise_sample_keeps missing_value s) as [E | E].
  - rewrite E. apply normalise_sample_nan.
  - destruct (normalise_sample_keeps missing_value (normalise_sample missing_value s))
      as [E' | E']; [|exact E'].
    rewrite E'. symmetry. rewrite E in E'. exact E'.
Qed.

(** X2. On a grid of float32 numbers, normalising twice is normalising
    once. *)
Theorem normalise_values_idempotent
    (values : ndarray sample) (missing_value : option sample) :
  float32_grid values ->
  normalise_values (normalise_values values missing_value) missing_value
  = normalise_values values missing_value.
Proof.
  intros _. rewrite !normalise_values_amap, amap_amap. apply amap_ext.
  apply normalise_sample_idempotent.
Qed.

Lemma normalise_values_idempotent_witness :
  normalise_values
    (normalise_values (Mat 2 [[Val 55; Val (-100)]; [NaN; Val 7]]) (Some (Val 7)))
    (Some (Val 7))
  = normalise_values (Mat 2 [[Val 55; Val (-100)]; [NaN; Val 7]]) (Some (Val 7)).
Proof.
  apply (normalise_values_idempotent (Mat 2 [[Val 55; Val (-100)]; [NaN; Val 7]])
           (Some (Val 7))).
  float32_integers.
Defined.

(** X3. The vertical flip commutes with the value normalizer and with the
    quantization: flipping the raw grid first, as [process_grib] does, gives
    the flipped normalised grid and the flipped int16 buffer. *)
Theorem normalise_values_flipud
    (values : ndarray sample) (missing_value : option sample) :
  normalise_values (flipud values) missing_value
  = flipud (normalise_values values missing_value)
  /\ scaled_int16 (normalise_values (flipud values) missing_value)
     = flipud (scaled_int16 (normalise_values values missing_value)).
Proof.
  assert (H : normalise_values (flipud values) missing_value
              = flipud (normalise_values values missing_value))
    by (rewrite !normalise_values_amap; apply amap_flipud).
  split; [exact H|]. rewrite H. apply amap_flipud.
Qed.

Lemma normalise_sample_either (missing_value : option sample) (v : Q) :
  normalise_sample missing_value (Val v) = NaN
  \/ normalise_sample missing_value (Val v) = Val v.
Proof.
  apply normalise_sample_keeps.
Qed.

(** X4. Which attribute decides.  For a float32 sample above -100 and
    attribute values that are float32 numbers: when the variable declares
    [missing_value], the sample becomes "no data" exactly when it equals that
    value, whatever [_FillValue] says; [_FillValue] decides only when
    [missing_value] is absent; with neither attribute the sample is kept. *)
Theorem detect_missing_value_precedence (var : variable) (i j : nat) (v : Q) :
  cell (values var) i j = Some (Val v) ->
  f32 v ->
  -100 < v ->
  let normalised := normalise_values (values var) (detect_missing_value var) in
  (forall m, attrs var !! "missing_value"%string = Some (Val m) ->
             f32 m ->
             (cell normalised i j = Some NaN <-> v == m))
  /\ (forall f, attrs var !! "missing_value"%string = None ->
                attrs var !! "_FillValue"%string = Some (Val f) ->
                f32 f ->
                (cell normalised i j = Some NaN <-> v == f))
  /\ (attrs var !! "missing_value"%string = None ->
      attrs var !! "_FillValue"%string = None ->
      cell normalised i j = Some (Val v)).
Proof.
  intros Hcell _ Hv normalised.
  assert (Hn : cell normalised i j
               = Some (normalise_sample (detect_missing_value var) (Val v))).
  { subst normalised. now rewrite normalise_values_amap, cell_amap, Hcell. }
  assert (Hdecide : forall m, detect_missing_value var = Some (Val m) ->
                              (cell normalised i j = Some NaN <-> v == m)).
  { intros m Hm. rewrite Hn, Hm. split.
    - intros [= E]. destruct (Qeq_dec v m) as [|Hne]; [assumption|].
      assert (E' : normalise_sample (Some (Val m)) (Val v) = Val v).
      { apply normalise_sample_number. repeat split; [assumption|].
        now intros m' [= <-]. }
      congruence.
    - intros Heq. destruct (normalise_sample_either (Some (Val m)) v) as [-> | E];
        [reflexivity|].
      apply normalise_sample_number in E as (_ & _ & H). now destruct (H m). }
  split; [|split].
  - intros m Hm _. apply Hdecide. unfold detect_missing_value. now rewrite Hm.
  - intros f Hm Hf _. apply Hdecide. unfold detect_missing_value. now rewrite Hm, Hf.
  - intros H1 H2. rewrite Hn. f_equal. apply normalise_sample_number.
    repeat split; [assumption|]. unfold detect_missing_value. rewrite H1, H2. discriminate.
Qed.

Lemma detect_missing_value_precedence_witness :
  cell (normalise_values (Mat 2 [[Val 55; Val 7]])
          (detect_missing_value
             {| attrs := <["_FillValue"%string := Val 7]>
                          (<["missing_value"%string := Val 55]> ∅);
                values := Mat 2 [[Val 55; Val 7]] |})) 0 1 = Some NaN
  <-> 7 == 55.
Proof.
  refine (proj1 (detect_missing_value_precedence
            {| attrs := <["_FillValue"%string := Val 7]>
                         (<["missing_value"%string := Val 55]> ∅);
               values := Mat 2 [[Val 55; Val 7]] |} 0 1 7 eq_refl
            (f32_integer 7 eq_refl) _) 55 _ (f32_integer 55 eq_refl)).
  - reflexivity.
  - vm_compute. reflexivity.
Defined.

(** ** More on quantization *)

Lemma rint_comp (x y : Q) : x == y -> rint x = rint y.
Proof.
  intros H. unfold rint. rewrite (Qfloor_comp x y H).
  assert (E : x - inject_Z (Qfloor y) == y - inject_Z (Qfloor y)) by now rewrite H.
  now rewrite (Qcompare_comp _ _ E _ _ (Qeq_refl _)).
Qed.

Lemma rint_integer (k : Z) : rint (inject_Z k) = k.
Proof.
  unfold rint. rewrite Qfloor_Z.
  destruct (Qcompare_spec (inject_Z k - inject_Z k) (1 # 2)) as [H|H|H];
    [exfalso; lra | reflexivity | exfalso; lra].
Qed.

Lemma rint_monotone (x y : Q) : x <= y -> (rint x <= rint y)%Z.
Proof.
  intros Hxy. destruct (Z_le_gt_dec (rint x) (rint y)) as [|Hgt]; [assumption|].
  exfalso.
  pose proof (rint_close x) as Hx. pose proof (rint_close y) as Hy.
  apply Qabs_Qle_condition in Hx, Hy.
  assert (H1 : inject_Z (rint y) + 1 <= inject_Z (rint x)).
  { change 1 with (inject_Z 1). rewrite <- inject_Z_plus, <- Zle_Qle. lia. }
  assert (E : x == y) by (apply Qle_antisym; lra).
  apply rint_comp in E. lia.
Qed.

(** Inside the usable range the cast changes nothing, the sentinel is not
    hit, and the error of the recipe is at most 0.05. *)
Lemma quantize_number (v : Q) :
  -3276.75 < v -> v < 3276.75 ->
  let raw := to_int16 (scaled_float (Val v)) in
  raw = rint (v * 10)
  /\ (-32767 <= raw <= 32767)%Z
  /\ Qabs (inject_Z raw * (1 # 10) + 0 - v) <= 0.05.
Proof.
  intros Hlo Hhi raw. subst raw. cbn [scaled_float].
  change (inject_Z scale_multiplier) with 10.
  assert (Hq : Qabs (v * 10) < 32767.5) by (apply Qabs_Qlt_condition; split; lra).
  pose proof (rint_in_range _ Hq) as Hr. pose proof (rint_close (v * 10)) as Hc.
  rewrite to_int16_in_range by lia. repeat split; try lia.
  apply Qabs_Qle_condition in Hc. apply Qabs_Qle_condition. split; lra.
Qed.

Lemma decode_number (values : ndarray sample) (raw : Z) :
  raw <> (-32768)%Z ->
  decode (snd (encode_values values)) raw = Val (inject_Z raw * (1 # 10) + 0).
Proof.
  intros H. unfold decode. cbn [encode_values snd missing scale offset].
  unfold missing_sentinel.
  now replace (raw =? -32768)%Z with false by (symmetry; now apply Z.eqb_neq).
Qed.

(** X5. The precision that the encoder keeps.  A sample with one decimal digit,
    that is [k / 10] for an integer [k] of magnitude at most 32767, is
    written as [k] and decoded to the very same number. *)
Theorem one_decimal_exact (values : ndarray sample) (i j : nat) (v : Q) (k : Z) :
  cell values i j = Some (Val v) ->
  v * 10 == inject_Z k ->
  (-32767 <= k <= 32767)%Z ->
  cell (scaled_int16 values) i j = Some k
  /\ exists w, decode (snd (encode_values values)) k = Val w /\ w == v.
Proof.
  intros Hcell Hk Hrange. split.
  - unfold scaled_int16. rewrite cell_amap, Hcell. cbn [fmap option_fmap option_map].
    f_equal. cbn [scaled_float]. change (inject_Z scale_multiplier) with 10.
    rewrite (rint_comp _ _ Hk), rint_integer. apply to_int16_in_range. lia.
  - eexists. split; [apply decode_number; lia|]. lra.
Qed.

Lemma one_decimal_exact_witness :
  cell (scaled_int16 (Mat 2 [[Val 12.3; Val (-0.5)]])) 0 0 = Some 123%Z
  /\ exists w, decode (snd (encode_values (Mat 2 [[Val 12.3; Val (-0.5)]]))) 123 = Val w
               /\ w == 12.3.
Proof.
  apply (one_decimal_exact (Mat 2 [[Val 12.3; Val (-0.5)]]) 0 0 12.3 123).
  - reflexivity.
  - reflexivity.
  - lia.
Defined.

(** X6. Quantization keeps the order of samples of the usable range: a larger
    sample never gets a smaller integer. *)
Theorem quantization_monotone
    (values : ndarray sample) (i j i' j' : nat) (v w : Q) :
  cell values i j = Some (Val v) ->
  cell values i' j' = Some (Val w) ->
  Qabs v < 3276.75 -> Qabs w < 3276.75 ->
  v <= w ->
  exists a b : Z,
    cell (scaled_int16 values) i j = Some a
    /\ cell (scaled_int16 values) i' j' = Some b
    /\ (a <= b)%Z.
Proof.
  intros Hv Hw Rv Rw Hle.
  apply Qabs_Qlt_condition in Rv as [Rv1 Rv2]. apply Qabs_Qlt_condition in Rw as [Rw1 Rw2].
  destruct (quantize_number v Rv1 Rv2) as (Ea & _ & _).
  destruct (quantize_number w Rw1 Rw2) as (Eb & _ & _).
  exists (to_int16 (scaled_float (Val v))), (to_int16 (scaled_float (Val w))).
  unfold scaled_int16. rewrite !cell_amap, Hv, Hw. repeat split.
  rewrite Ea, Eb. apply rint_monotone. lra.
Qed.

Lemma quantization_monotone_witness :
  exists a b : Z,
    cell (scaled_int16 (Mat 2 [[Val 12.3; Val (-0.5)]])) 0 1 = Some a
    /\ cell (scaled_int16 (Mat 2 [[Val 12.3; Val (-0.5)]])) 0 0 = Some b
    /\ (a <= b)%Z.
Proof.
  apply (quantization_monotone (Mat 2 [[Val 12.3; Val (-0.5)]]) 0 1 0 0 (-0.5) 12.3);
    reflexivity || discriminate.
Defined.

(** X7. Normalizer and encoder together, on a grid of float32 numbers.  The
    normalizer leaves no number at or below -100, so for the grid that
    [process_grib] encodes only the upper limit matters: every number below
    3276.75 of the normalised grid is a float32, is written as an integer
    other than the sentinel, and decodes to within 0.0501 of itself, with
    the product taken exactly and with the product rounded to float32. *)
Theorem normalised_round_trip
    (values : ndarray sample) (missing_value : option sample) (i j : nat) (v : Q) :
  float32_grid values ->
  let normalised := normalise_values values missing_value in
  cell normalised i j = Some (Val v) ->
  v < 3276.75 ->
  f32 v
  /\ (exists (raw : Z) (w : Q),
        cell (scaled_int16 normalised) i j = Some raw
        /\ raw <> (-32768)%Z
        /\ decode (snd (encode_values normalised)) raw = Val w
        /\ Qabs (w - v) <= 0.0501)
  /\ (exists w : Q,
        to_int16 (scaled_float32 (Val v)) <> (-32768)%Z
        /\ decode (snd (encode_values normalised))
             (to_int16 (scaled_float32 (Val v))) = Val w
        /\ Qabs (w - v) <= 0.0501).
Proof.
  intros Hgrid normalised Hcell Hhi.
  assert (Hlo : -100 < v).
  { subst normalised. rewrite normalise_values_amap, cell_amap in Hcell.
    destruct (cell values i j) as [s|]; [|discriminate]. injection Hcell as Hcell.
    now apply normalise_sample_number in Hcell. }
  assert (Hf : f32 v).
  { pose proof (normalise_values_float32 values missing_value Hgrid) as Hn.
    unfold float32_grid in Hn. rewrite Forall_forall in Hn.
    apply (Hn (Val v)). now apply cell_elem_of_ravel in Hcell. }
  split; [exact Hf|]. split.
  - destruct (quantize_number v) as (_ & Hr & Herr); [lra | assumption|].
    exists (to_int16 (scaled_float (Val v))),
           (inject_Z (to_int16 (scaled_float (Val v))) * (1 # 10) + 0).
    repeat split.
    + unfold scaled_int16. now rewrite cell_amap, Hcell.
    + lia.
    + apply decode_number. lia.
    + apply Qabs_Qle_condition in Herr. apply Qabs_Qle_condition. split; lra.
  - destruct (quantize_float32 v Hf) as [Hr Herr];
      [apply Qabs_Qlt_condition; split; lra|].
    exists (inject_Z (to_int16 (scaled_float32 (Val v))) * (1 # 10) + 0).
    repeat split.
    + lia.
    + apply decode_number. lia.
    + apply Qabs_Qle_condition in Herr. apply Qabs_Qle_condition. split; lra.
Qed.

Lemma normalised_round_trip_witness :
  f32 (-99.75)
  /\ (exists (raw : Z) (w : Q),
        cell (scaled_int16 (normalise_values (Mat 2 [[Val (-99.75); Val (-9999)]])
                                             (Some (Val (-9999))))) 0 0 = Some raw
        /\ raw <> (-32768)%Z
        /\ decode (snd (encode_values (normalise_values (Mat 2 [[Val (-99.75); Val (-9999)]])
                                                        (Some (Val (-9999)))))) raw = Val w
        /\ Qabs (w - -99.75) <= 0.0501)
  /\ (exists w : Q,
        to_int16 (scaled_float32 (Val (-99.75))) <> (-32768)%Z
        /\ decode (snd (encode_values (normalise_values (Mat 2 [[Val (-99.75); Val (-9999)]])
                                                        (Some (Val (-9999))))))
             (to_int16 (scaled_float32 (Val (-99.75)))) = Val w
        /\ Qabs (w - -99.75) <= 0.0501).
Proof.
  apply (normalised_round_trip (Mat 2 [[Val (-99.75); Val (-9999)]])
           (Some (Val (-9999))) 0 0 (-99.75)).
  - unfold float32_grid. cbn [ravel concat app].
    apply Forall_cons_2;
      [|apply Forall_cons_2; [apply f32_integer; reflexivity | apply Forall_nil_2]].
    exists (-399)%Z, (-2)%Z. split; [reflexivity|]. split; [lia | reflexivity].
  - reflexivity.
  - reflexivity.
Defined.

(** ** More on bounds, steps and orientation *)

Lemma east_item {A : Type} (a : ndarray A) :
  wf a ->
  (if Nat.eqb (ndim a) 2 then item2 a 0 (-1) else item1 a (-1))
  = or_index_error (east_sample a).
Proof.
  intros Hwf. destruct a as [v|c rows]; cbn [ndim Nat.eqb east_sample item1 item2].
  - apply getitem_last.
  - rewrite getitem_first. destruct rows as [|r rows]; [reflexivity|].
    cbn [head or_index_error bind mbind option_bind].
    apply Forall_cons in Hwf as [Hr _]. rewrite <- Hr. apply getitem_last.
Qed.

Lemma wf_empty_first {A : Type} (a : ndarray A) :
  wf a -> size a = 0%nat -> first_sample a = None.
Proof.
  destruct a as [v|c rows]; cbn [wf size first_sample].
  - intros _ H. now destruct v.
  - intros Hwf H. destruct rows as [|r rows]; [reflexivity|].
    apply Forall_cons in Hwf as [Hr _]. cbn.
    destruct r; [reflexivity | cbn in *; lia].
Qed.

Lemma first_sample_flipud {A : Type} (a : ndarray A) :
  first_sample (flipud a) = last_sample a.
Proof. destruct a; cbn [first_sample last_sample flipud]; now rewrite head_reverse. Qed.

Lemma last_sample_flipud {A : Type} (a : ndarray A) :
  last_sample (flipud a) = first_sample a.
Proof. destruct a; cbn [first_sample last_sample flipud]; now rewrite last_reverse. Qed.

Lemma wf_flipud {A : Type} (a : ndarray A) : wf a -> wf (flipud a).
Proof.
  destruct a as [v|c rows]; cbn [wf flipud]; [trivial|]. apply Forall_reverse.
Qed.

Lemma shape2_flipud {A : Type} (a : ndarray A) : shape2 (flipud a) = shape2 a.
Proof. destruct a; cbn [shape2 flipud]; [reflexivity | now rewrite length_reverse]. Qed.

(** The latitude ends that a successful [ensure_orientation] has read. *)
Lemma ensure_orientation_ends
    (latitudes latitudes' : ndarray Q) (values values' : ndarray sample) (flipped : bool) :
  wf latitudes ->
  ensure_orientation latitudes values = Ok (latitudes', values', flipped) ->
  exists a b,
    first_sample latitudes = Some a /\ last_sample latitudes = Some b
    /\ ((a < b /\ flipped = true
         /\ latitudes' = flipud latitudes /\ values' = flipud values)
        \/ (b <= a /\ flipped = false /\ latitudes' = latitudes /\ values' = values)).
Proof.
  intros Hwf H. unfold ensure_orientation in H.
  rewrite first_item, last_item in H by assumption.
  destruct (first_sample latitudes) as [a|]; [|discriminate].
  destruct (last_sample latitudes) as [b|]; [|discriminate].
  cbn [or_index_error bind] in H. exists a, b. repeat split.
  destruct (Qlt_le_dec a b); injection H as <- <- <-; auto 10.
Qed.

(** X8. The bounds are read off the ends of the axes and nothing else: south and
    north are the smaller and the larger of the first and last latitude,
    west and east the smaller and the larger of the first and last longitude
    (of the first row, for a rank-2 axis). *)
Theorem extract_bounds_endpoints
    (latitudes longitudes : ndarray Q) (a b c d : Q) :
  wf latitudes -> wf longitudes ->
  first_sample latitudes = Some a -> last_sample latitudes = Some b ->
  first_sample longitudes = Some c -> east_sample longitudes = Some d ->
  extract_bounds latitudes longitudes
  = Ok (if Qlt_le_dec a b then a else b,
        if Qlt_le_dec d c then d else c,
        if Qlt_le_dec a b then b else a,
        if Qlt_le_dec d c then c else d).
Proof.
  intros Hlat Hlon Ha Hb Hc Hd. unfold extract_bounds.
  pose proof (first_item _ Hlat) as F1. pose proof (last_item _ Hlat) as L1.
  pose proof (first_item _ Hlon) as F2. pose proof (east_item _ Hlon) as L2.
  rewrite Ha in F1. rewrite Hb in L1. rewrite Hc in F2. rewrite Hd in L2.
  destruct (Nat.eqb (ndim latitudes) 2), (Nat.eqb (ndim longitudes) 2);
    rewrite F1, L1, F2, L2; cbn [or_index_error bind];
    rewrite !sorted_pair_spec; cbn [bind];
    destruct (Qlt_le_dec a b), (Qlt_le_dec d c); reflexivity.
Qed.

Lemma extract_bounds_endpoints_witness :
  extract_bounds (Vec [10; 50; 20]) (Mat 2 [[-100; -120]; [-90; -80]])
  = Ok (10, -120, 20, -100).
Proof.
  refine (extract_bounds_endpoints (Vec [10; 50; 20]) (Mat 2 [[-100; -120]; [-90; -80]])
            10 20 (-100) (-120) I _ eq_refl eq_refl eq_refl eq_refl).
  cbn. repeat constructor.
Defined.

(** X9. An axis without elements is an [IndexError]: in the orientation
    normalizer for the latitudes, and in the bounds extractor for either
    axis. *)
Theorem empty_axis_index_error
    (latitudes longitudes : ndarray Q) (values : ndarray sample) :
  wf latitudes -> wf longitudes ->
  (size latitudes = 0%nat ->
   ensure_orientation latitudes values = Raise IndexError
   /\ extract_bounds latitudes longitudes = Raise IndexError)
  /\ (size latitudes <> 0%nat -> size longitudes = 0%nat ->
      extract_bounds latitudes longitudes = Raise IndexError).
Proof.
  intros Hlat Hlon. split.
  - intros Hz. pose proof (first_item _ Hlat) as F.
    rewrite (wf_empty_first _ Hlat Hz) in F. cbn [or_index_error] in F.
    unfold ensure_orientation, extract_bounds.
    destruct (Nat.eqb (ndim latitudes) 2); now rewrite F.
  - intros Hn Hz.
    destruct (wf_nonempty_first _ Hlat Hn) as [a Ha].
    destruct (wf_nonempty_last _ Hlat Hn) as [b Hb].
    pose proof (first_item _ Hlat) as F1. pose proof (last_item _ Hlat) as L1.
    rewrite Ha in F1. rewrite Hb in L1.
    pose proof (first_item _ Hlon) as F2.
    rewrite (wf_empty_first _ Hlon Hz) in F2. cbn [or_index_error] in F2.
    unfold extract_bounds.
    destruct (Nat.eqb (ndim latitudes) 2), (Nat.eqb (ndim longitudes) 2);
      now rewrite F1, L1, F2.
Qed.

Lemma empty_axis_index_error_witness :
  extract_bounds (Vec [10; 20]) (Mat 0 [[]; []]) = Raise IndexError.
Proof.
  refine (proj2 (empty_axis_index_error (Vec [10; 20]) (Mat 0 [[]; []]) (Vec []) I _) _ _).
  - cbn. repeat constructor.
  - cbn. lia.
  - reflexivity.
Defined.

(** X10. A step is never negative. *)
Theorem extract_resolution_nonnegative
    (latitudes longitudes : ndarray Q) (lat_step lon_step : Q) :
  extract_resolution latitudes longitudes = Ok (lat_step, lon_step) ->
  0 <= lat_step /\ 0 <= lon_step.
Proof.
  assert (Hstep : forall v, 0 <= step_of v).
  { intros [|x [|y v]]; cbn [step_of]; [apply Qle_refl .. | apply Qabs_nonneg]. }
  unfold extract_resolution. intros H.
  match type of H with bind ?r _ = _ => destruct r as [u|] end; [|discriminate].
  cbn [bind] in H.
  match type of H with bind ?r _ = _ => destruct r as [v|] end; [|discriminate].
  cbn [bind] in H. rewrite !compute_step_spec in H. cbn [bind] in H.
  injection H as <- <-. auto.
Qed.

Lemma extract_resolution_nonnegative_witness : 0 <= 1 /\ 0 <= 10.
Proof.
  apply (extract_resolution_nonnegative (Vec [50; 49]) (Vec [-80; -90])).
  reflexivity.
Defined.

(** X11. After the orientation normalizer the latitude axis runs north to south:
    its first sample is at least its last one.  Axis and grid keep their
    shapes. *)
Theorem ensure_orientation_north_first
    (latitudes latitudes' : ndarray Q) (values values' : ndarray sample) (flipped : bool) :
  wf latitudes ->
  ensure_orientation latitudes values = Ok (latitudes', values', flipped) ->
  (exists north south,
      first_sample latitudes' = Some north
      /\ last_sample latitudes' = Some south
      /\ south <= north)
  /\ wf latitudes'
  /\ nrows latitudes' = nrows latitudes
  /\ shape2 values' = shape2 values.
Proof.
  intros Hwf H.
  destruct (ensure_orientation_ends _ _ _ _ _ Hwf H)
    as (a & b & Ha & Hb & [(Hlt & _ & -> & ->) | (Hle & _ & -> & ->)]).
  - rewrite first_sample_flipud, last_sample_flipud. repeat split.
    + exists b, a. repeat split; try assumption. now apply Qlt_le_weak.
    + now apply wf_flipud.
    + destruct latitudes; cbn [nrows flipud]; apply length_reverse.
    + apply shape2_flipud.
  - repeat split; eauto.
Qed.

Lemma ensure_orientation_north_first_witness :
  exists north south,
    first_sample (Vec [20; 10]) = Some north
    /\ last_sample (Vec [20; 10]) = Some south
    /\ south <= north.
Proof.
  refine (proj1 (ensure_orientation_north_first
                   (Vec [10; 20]) (Vec [20; 10])
                   (Mat 1 [[Val 1]; [Val 3]]) (Mat 1 [[Val 3]; [Val 1]]) true I _)).
  reflexivity.
Defined.

(** ** The orchestrator as a whole *)

Lemma cell_flipud {A : Type} (a : ndarray A) (i j : nat) :
  (i < nrows a)%nat -> cell (flipud a) i j = cell a (nrows a - 1 - i) j.
Proof.
  intros Hi. destruct a as [v|c rows]; cbn [cell flipud nrows] in *.
  - destruct (Nat.eqb j 0); [|reflexivity].
    rewrite reverse_lookup by assumption. f_equal. lia.
  - rewrite reverse_lookup by assumption.
    replace (length rows - S i)%nat with (length rows - 1 - i)%nat by lia. reflexivity.
Qed.

Lemma shape2_nrows {A : Type} (a : ndarray A) (r c : nat) :
  shape2 a = Ok (r, c) -> nrows a = r.
Proof. destruct a; cbn [shape2 nrows]; [discriminate | now intros [= <- _]]. Qed.

(** What a successful run has gone through. *)
Lemma process_grib_pipeline (dataset : Dataset) (p : payload) :
  process_grib dataset = Ok p ->
  exists name var rest lat0 lon0 latitudes raw_values flipped,
    data_vars dataset = (name, var) :: rest
    /\ coords dataset !! "latitude"%string = Some lat0
    /\ coords dataset !! "longitude"%string = Some lon0
    /\ ensure_orientation lat0 (values var) = Ok (latitudes, raw_values, flipped)
    /\ build_payload dataset latitudes
         (if flipped then flipud (wrap_longitudes lon0) else wrap_longitudes lon0)
         (normalise_values raw_values (detect_missing_value var)) = Ok p.
Proof.
  intros H. apply process_grib_inv in H as (lat & lon & vals & Hn & Hb).
  unfold normalised_inputs, getcoord in Hn.
  destruct (data_vars dataset) as [|[name var] rest]; [discriminate|]. cbn [bind] in Hn.
  destruct (coords dataset !! "latitude"%string) as [lat0|]; [|discriminate].
  cbn [bind] in Hn.
  destruct (coords dataset !! "longitude"%string) as [lon0|]; [|discriminate].
  cbn [bind] in Hn.
  destruct (ensure_orientation lat0 (values var)) as [[[lat' raw'] flipped]|] eqn:Eo;
    [|discriminate].
  cbn [bind] in Hn. injection Hn as <- <- <-.
  exists name, var, rest, lat0, lon0, lat', raw', flipped. auto 10.
Qed.

(** X12. The errors of a dataset that has a data variable, in the order in which
    the code meets them: a missing [latitude] entry, then a missing
    [longitude] entry, are a [KeyError]; a variable of rank 1 over a
    latitude axis that is not empty fails when its shape is unpacked. *)
Theorem process_grib_input_errors
    (dataset : Dataset) (name : string) (var : variable) (rest : list (string * variable)) :
  data_vars dataset = (name, var) :: rest ->
  (coords dataset !! "latitude"%string = None ->
   process_grib dataset = Raise (KeyError "latitude"))
  /\ (coords dataset !! "latitude"%string <> None ->
      coords dataset !! "longitude"%string = None ->
      process_grib dataset = Raise (KeyError "longitude"))
  /\ (forall lat0 lon0 v,
        coords dataset !! "latitude"%string = Some lat0 ->
        coords dataset !! "longitude"%string = Some lon0 ->
        wf lat0 -> size lat0 <> 0%nat ->
        values var = Vec v ->
        process_grib dataset = Raise ValueError).
Proof.
  intros Hvar. unfold process_grib, normalised_inputs, getcoord. rewrite Hvar.
  cbn [bind]. repeat split.
  - now intros ->.
  - intros Hlat ->. now destruct (coords dataset !! "latitude"%string).
  - intros lat0 lon0 v -> -> Hwf Hsize Hv. cbn [bind].
    destruct (wf_nonempty_first _ Hwf Hsize) as [a Ha].
    destruct (wf_nonempty_last _ Hwf Hsize) as [b Hb].
    unfold ensure_orientation. rewrite first_item, last_item, Ha, Hb by assumption.
    cbn [or_index_error bind]. rewrite Hv.
    destruct (Qlt_le_dec a b); cbn [bind]; unfold build_payload, normalise_values;
      destruct (detect_missing_value var); reflexivity.
Qed.

Lemma process_grib_input_errors_witness :
  process_grib {| data_vars := [("unknown"%string,
                                 {| attrs := ∅; values := Mat 1 [[Val 1]] |})];
                  coords := <["latitude"%string := Vec [10]]> ∅;
                  time_iso := None |}
  = Raise (KeyError "longitude").
Proof.
  refine (proj1 (proj2 (process_grib_input_errors
            {| data_vars := [("unknown"%string,
                              {| attrs := ∅; values := Mat 1 [[Val 1]] |})];
               coords := <["latitude"%string := Vec [10]]> ∅;
               time_iso := None |} _ _ _ eq_refl)) _ _).
  - discriminate.
  - reflexivity.
Defined.

Lemma pipeline_shape
    (dataset : Dataset) (p : payload) (name : string) (var : variable)
    (rest : list (string * variable)) :
  process_grib dataset = Ok p ->
  data_vars dataset = (name, var) :: rest ->
  shape2 (values var) = Ok (rows p, cols p).
Proof.
  intros Hp Hvar.
  apply process_grib_pipeline in Hp
    as (name' & var' & rest' & lat0 & lon0 & lat & raw & flipped
        & Hvar' & _ & _ & Ho & Hb).
  rewrite Hvar in Hvar'. injection Hvar' as <- <- <-.
  apply build_payload_inv in Hb as (Hshape & _).
  unfold normalise_values in Hshape.
  assert (Hraw : shape2 raw = Ok (rows p, cols p)).
  { destruct (detect_missing_value var); now rewrite ?shape2_amap in Hshape. }
  unfold ensure_orientation in Ho.
  destruct (if Nat.eqb (ndim lat0) 2 then item2 lat0 0 0 else item1 lat0 0);
    [|discriminate].
  destruct (if Nat.eqb (ndim lat0) 2 then item2 lat0 (-1) 0 else item1 lat0 (-1));
    [|discriminate].
  cbn [bind] in Ho. destruct (Qlt_le_dec _ _); injection Ho as <- <- <-;
    now rewrite ?shape2_flipud in Hraw.
Qed.

(** X13. The shape in the payload is the shape of the values of the first data
    variable: neither the flip nor the normalizer changes it. *)
Theorem process_grib_shape
    (dataset : Dataset) (p : payload) (name : string) (var : variable)
    (rest : list (string * variable)) :
  process_grib dataset = Ok p ->
  data_vars dataset = (name, var) :: rest ->
  shape2 (values var) = Ok (rows p, cols p).
Proof. apply pipeline_shape. Qed.

Lemma process_grib_shape_witness :
  shape2 (Mat 2 [[Val 1; Val 2]; [Val 3; Val (-9999)]])
  = Ok (rows scenario_a_payload, cols scenario_a_payload).
Proof.
  refine (process_grib_shape scenario_a scenario_a_payload "unknown"
            {| attrs := <["missing_value"%string := Val (-9999)]> ∅;
               values := Mat 2 [[Val 1; Val 2]; [Val 3; Val (-9999)]] |} [] _ eq_refl).
  vm_compute. reflexivity.
Defined.

Lemma extract_bounds_south_north
    (latitudes longitudes : ndarray Q) (a b south west north east : Q) :
  wf latitudes ->
  first_sample latitudes = Some a -> last_sample latitudes = Some b ->
  extract_bounds latitudes longitudes = Ok (south, west, north, east) ->
  south = (if Qlt_le_dec a b then a else b)
  /\ north = (if Qlt_le_dec a b then b else a).
Proof.
  intros Hwf Ha Hb H. unfold extract_bounds in H.
  pose proof (first_item _ Hwf) as F. pose proof (last_item _ Hwf) as L.
  rewrite Ha in F. rewrite Hb in L.
  assert (E : (if Nat.eqb (ndim latitudes) 2
               then north <- item2 latitudes 0 0 ;;
                    south <- item2 latitudes (-1) 0 ;; Ok (north, south)
               else north <- item1 latitudes 0 ;;
                    south <- item1 latitudes (-1) ;; Ok (north, south))
              = Ok (a, b))
    by (destruct (Nat.eqb (ndim latitudes) 2); now rewrite F, L).
  rewrite E in H. cbn [bind] in H.
  match type of H with bind ?r _ = _ => destruct r as [[w0 e0]|] end; [|discriminate].
  cbn [bind] in H. rewrite !sorted_pair_spec in H. cbn [bind] in H.
  destruct (Qlt_le_dec a b), (Qlt_le_dec e0 w0); now injection H as <- _ <- _.
Qed.

(** X14. Row 0 is north.  For a successful run, with [a] and [b] the first and
    the last latitude of the dataset: the south and north bounds are the
    smaller and the larger of the two, and the data string holds the
    quantised normalised values of the variable with the rows in reverse
    order exactly when [a < b], in the given order otherwise. *)
Theorem process_grib_row_order
    (dataset : Dataset) (p : payload) (name : string) (var : variable)
    (rest : list (string * variable)) (lat0 : ndarray Q) (a b : Q) :
  process_grib dataset = Ok p ->
  data_vars dataset = (name, var) :: rest ->
  coords dataset !! "latitude"%string = Some lat0 ->
  wf lat0 ->
  first_sample lat0 = Some a ->
  last_sample lat0 = Some b ->
  let quantised :=
    scaled_int16 (normalise_values (values var) (detect_missing_value var)) in
  (let '(south, _, north, _) := bounds p in
   south = (if Qlt_le_dec a b then a else b)
   /\ north = (if Qlt_le_dec a b then b else a))
  /\ exists buffer : ndarray Z,
       b64decode (data p) = Some (tobytes buffer)
       /\ forall i j, (i < rows p)%nat ->
            cell buffer i j
            = cell quantised (if Qlt_le_dec a b then rows p - 1 - i else i)%nat j.
Proof.
  intros Hp Hvar Hlat Hwf Ha Hb quantised.
  pose proof (pipeline_shape _ _ _ _ _ Hp Hvar) as Hshape0.
  apply process_grib_pipeline in Hp
    as (name' & var' & rest' & lat0' & lon0 & lat & raw & flipped
        & Hvar' & Hlat' & _ & Ho & Hbuild).
  rewrite Hvar in Hvar'. injection Hvar' as <- <- <-.
  rewrite Hlat in Hlat'. injection Hlat' as <-.
  apply build_payload_inv in Hbuild as (Hshape & Hbounds & _ & _ & _ & _ & Hdata).
  destruct (ensure_orientation_ends _ _ _ _ _ Hwf Ho)
    as (a' & b' & Ha' & Hb' & Hcase).
  assert (a' = a) by congruence. assert (b' = b) by congruence. subst a' b'.
  split.
  - destruct (bounds p) as [[[south west] north] east].
    destruct Hcase as [(Hlt & _ & -> & _) | (Hle & _ & -> & _)].
    + apply (extract_bounds_south_north _ _ b a) in Hbounds as [-> ->];
        rewrite ?first_sample_flipud, ?last_sample_flipud; auto using wf_flipud.
      destruct (Qlt_le_dec a b) as [|Hle]; [|exfalso; revert Hlt; now apply Qle_not_lt].
      destruct (Qlt_le_dec b a) as [Hba|]; [|auto].
      exfalso. apply (Qlt_irrefl a). now apply Qlt_trans with b.
    + now apply (extract_bounds_south_north _ _ a b) in Hbounds.
  - exists (scaled_int16 (normalise_values raw (detect_missing_value var))). split.
    + rewrite Hdata. cbn [encode_values fst]. apply b64decode_encode, tobytes_ok.
    + intros i j Hi. subst quantised.
      destruct Hcase as [(Hlt & _ & _ & ->) | (Hle & _ & _ & ->)].
      * destruct (Qlt_le_dec a b) as [|Hle]; [|exfalso; revert Hlt; now apply Qle_not_lt].
        rewrite !normalise_values_amap. unfold scaled_int16.
        rewrite !amap_flipud, cell_flipud.
        -- do 2 f_equal. unfold nrows, amap. destruct (values var) as [v|c rs].
           ++ discriminate.
           ++ cbn [shape2] in Hshape0. injection Hshape0 as <- _.
              now rewrite !length_map.
        -- destruct (values var) as [v|c rs]; [discriminate|].
           cbn [shape2] in Hshape0. injection Hshape0 as E _.
           cbn [amap nrows]. rewrite !length_map. lia.
      * destruct (Qlt_le_dec a b) as [Hlt|]; [exfalso; revert Hlt; now apply Qle_not_lt|].
        reflexivity.
Qed.

Lemma process_grib_row_order_witness :
  exists buffer : ndarray Z,
    b64decode (data scenario_a_payload) = Some (tobytes buffer)
    /\ forall i j, (i < rows scenario_a_payload)%nat ->
         cell buffer i j
         = cell (scaled_int16
                   (normalise_values (Mat 2 [[Val 1; Val 2]; [Val 3; Val (-9999)]])
                                     (Some (Val (-9999)))))
                (rows scenario_a_payload - 1 - i)%nat j.
Proof.
  refine (proj2 (process_grib_row_order scenario_a scenario_a_payload "unknown"
            {| attrs := <["missing_value"%string := Val (-9999)]> ∅;
               values := Mat 2 [[Val 1; Val 2]; [Val 3; Val (-9999)]] |} []
            (Vec [10; 20]) 10 20 _ eq_refl _ I eq_refl eq_refl)).
  - vm_compute. reflexivity.
  - vm_compute. reflexivity.
Defined.

(** X15. The longitude axis follows the flip whatever its rank.  When the
    latitudes ascend, a rank-1 longitude axis is reversed as well, so the
    longitude step of the payload is the step of the last two longitudes;
    otherwise it is the step of the first two. *)
Theorem rank1_longitude_step
    (dataset : Dataset) (p : payload) (lat0 : ndarray Q) (lons : list Q) (a b : Q) :
  process_grib dataset = Ok p ->
  coords dataset !! "latitude"%string = Some lat0 ->
  coords dataset !! "longitude"%string = Some (Vec lons) ->
  wf lat0 ->
  first_sample lat0 = Some a ->
  last_sample lat0 = Some b ->
  let wrapped := ravel (wrap_longitudes (Vec lons)) in
  lonStep p = step_of (if Qlt_le_dec a b then reverse wrapped else wrapped).
Proof.
  intros Hp Hlat Hlon Hwf Ha Hb wrapped.
  apply process_grib_pipeline in Hp
    as (name & var & rest & lat0' & lon0 & lat & raw & flipped
        & _ & Hlat' & Hlon' & Ho & Hbuild).
  rewrite Hlat in Hlat'. injection Hlat' as <-.
  rewrite Hlon in Hlon'. injection Hlon' as <-.
  apply build_payload_inv in Hbuild as (_ & _ & Hres & _).
  destruct (ensure_orientation_ends _ _ _ _ _ Hwf Ho)
    as (a' & b' & Ha' & Hb' & Hcase).
  assert (a' = a) by congruence. assert (b' = b) by congruence. subst a' b'.
  unfold extract_resolution in Hres.
  match type of Hres with bind ?r _ = _ => destruct r as [u|] end; [|discriminate].
  cbn [bind] in Hres.
  destruct Hcase as [(Hlt & -> & _) | (Hle & -> & _)];
    cbn [wrap_longitudes amap flipud ndim Nat.eqb ravel bind] in Hres;
    rewrite !compute_step_spec in Hres; cbn [bind] in Hres;
    injection Hres as _ <-; subst wrapped; cbn [wrap_longitudes amap ravel].
  - destruct (Qlt_le_dec a b) as [|Hle]; [reflexivity|].
    exfalso. revert Hlt. now apply Qle_not_lt.
  - destruct (Qlt_le_dec a b) as [Hlt|]; [|reflexivity].
    exfalso. revert Hlt. now apply Qle_not_lt.
Qed.

Lemma rank1_longitude_step_witness :
  lonStep scenario_a_payload = step_of (reverse (ravel (wrap_longitudes (Vec [190; 200])))).
Proof.
  refine (rank1_longitude_step scenario_a scenario_a_payload (Vec [10; 20]) [190; 200]
            10 20 _ _ _ I eq_refl eq_refl).
  - vm_compute. reflexivity.
  - vm_compute. reflexivity.
  - vm_compute. reflexivity.
Defined.

(** ** Timestamp *)

Lemma endswith_Z_app (s : string) : endswith_Z (s ++ "Z") = true.
Proof.
  induction s as [|c s IH]; [reflexivity|].
  change (endswith_Z (String c (s ++ "Z")) = true). cbn [endswith_Z].
  destruct (s ++ "Z")%string eqn:E; [|exact IH].
  destruct s; discriminate.
Qed.

(** X17. A timestamp, whenever [format_timestamp] returns one, ends with the
    UTC marker [Z]; and a dataset without a time entry has none. *)
Theorem format_timestamp_utc (dataset : Dataset) :
  (forall s, format_timestamp dataset = Ok (Some s) -> endswith_Z s = true)
  /\ (time_iso dataset = None -> format_timestamp dataset = Ok None).
Proof.
  unfold format_timestamp. split.
  - intros s. destruct (time_iso dataset) as [[iso| |]|]; try discriminate.
    destruct (endswith_Z iso) eqn:E; intros [= <-];
      [assumption | apply endswith_Z_app].
  - now intros ->.
Qed.

Lemma format_timestamp_utc_witness :
  endswith_Z "2024-05-01T12:00:00Z" = true.
Proof.
  refine (proj1 (format_timestamp_utc
            {| data_vars := []; coords := ∅;
               time_iso := Some (Formatted "2024-05-01T12:00:00"%string) |})
            "2024-05-01T12:00:00Z"%string _).
  reflexivity.
Defined.

(** ** More on longitudes *)

Lemma amap_ext_in {A B : Type} (f g : A -> B) (a : ndarray A) :
  (forall x, x ∈ ravel a -> f x = g x) -> amap f a = amap g a.
Proof.
  intros H. destruct a as [v|c rows]; cbn [amap ravel] in *; f_equal.
  - apply map_ext_in. intros x Hx. now apply H, list_elem_of_In.
  - apply map_ext_in. intros r Hr. apply map_ext_in. intros x Hx.
    apply H, elem_of_concat. exists r. split; now apply list_elem_of_In.
Qed.

Lemma amap_id {A : Type} (f : A -> A) (a : ndarray A) :
  (forall x, x ∈ ravel a -> f x = x) -> amap f a = a.
Proof.
  intros H. rewrite (amap_ext_in f (fun x => x)) by assumption.
  destruct a as [v|c rows]; cbn [amap]; f_equal.
  - apply map_id.
  - rewrite <- (map_id rows) at 2. apply map_ext. intros r. apply map_id.
Qed.

(** X18. An axis that is already at most 180 everywhere is returned as it is,
    and on an axis that is at most 540 everywhere a second pass of the
    normalizer changes nothing. *)
Theorem wrap_longitudes_idempotent (longitudes : ndarray Q) :
  ((forall x, x ∈ ravel longitudes -> x <= 180) ->
   wrap_longitudes longitudes = longitudes)
  /\ ((forall x, x ∈ ravel longitudes -> x <= 540) ->
      wrap_longitudes (wrap_longitudes longitudes) = wrap_longitudes longitudes).
Proof.
  split; intros H.
  - apply amap_id. intros x Hx. specialize (H x Hx).
    destruct (Qlt_le_dec 180 x) as [Hlt|]; [|reflexivity].
    exfalso. revert Hlt. now apply Qle_not_lt.
  - apply amap_id. intros y Hy. unfold wrap_longitudes in Hy. rewrite ravel_amap in Hy.
    apply list_elem_of_In, in_map_iff in Hy as (x & <- & Hx).
    apply list_elem_of_In, H in Hx.
    destruct (Qlt_le_dec 180 x) as [Hlt|Hle].
    + destruct (Qlt_le_dec 180 (x - 360)) as [Hlt'|]; [|reflexivity]. exfalso. lra.
    + destruct (Qlt_le_dec 180 x) as [Hlt'|]; [|reflexivity]. exfalso. lra.
Qed.

Lemma wrap_longitudes_idempotent_witness :
  wrap_longitudes (wrap_longitudes (Vec [170; 190; 360]))
  = wrap_longitudes (Vec [170; 190; 360]).
Proof.
  refine (proj2 (wrap_longitudes_idempotent (Vec [170; 190; 360])) _).
  intros x Hx. cbn [ravel] in Hx. apply list_elem_of_In in Hx. cbn [In] in Hx.
  destruct Hx as [<- | [<- | [<- | []]]]; discriminate.
Defined.

(** ** Size of the data string *)

Lemma b64encode_length (bytes : list Z) :
  String.length (b64encode bytes) = (4 * ((length bytes + 2) / 3))%nat.
Proof.
  induction bytes as [|a|a b|a b c l IH] using list_ind3; try reflexivity.
  cbn [b64encode String.length length]. rewrite IH.
  replace (S (S (S (length l))) + 2)%nat with ((length l + 2) + 1 * 3)%nat by lia.
  rewrite Nat.div_add by lia. lia.
Qed.

(** X19. The data string has four characters for every three bytes of the
    buffer, the last group padded: for [n] cells, [4 * ceil (2 n / 3)]
    characters. *)
Theorem encode_values_length (values : ndarray sample) :
  String.length (fst (encode_values values))
  = (4 * ((2 * length (ravel values) + 2) / 3))%nat.
Proof.
  cbn [encode_values fst]. rewrite b64encode_length, tobytes_length.
  unfold scaled_int16. now rewrite ravel_amap, length_map.
Qed.

(** ** Range of the extrema *)

Lemma present_normalised_above (values : ndarray sample) (missing_value : option sample) (q : Q) :
  q ∈ present_samples (normalise_values values missing_value) -> -100 < q.
Proof.
  unfold present_samples. rewrite normalise_values_amap, ravel_amap.
  intros H. apply list_elem_of_omap in H as (s & Hs & Hq).
  apply list_elem_of_In, in_map_iff in Hs as (s0 & <- & _).
  destruct (normalise_sample missing_value s0) as [|v| |] eqn:E; try discriminate.
  injection Hq as <-. now apply normalise_sample_number in E.
Qed.

Lemma normalise_values_posinf
    (values : ndarray sample) (missing_value : option sample) :
  PosInf ∈ ravel (normalise_values values missing_value) -> PosInf ∈ ravel values.
Proof.
  rewrite normalise_values_amap, ravel_amap. intros H.
  apply list_elem_of_In, in_map_iff in H as (s & E & Hs).
  destruct (normalise_sample_keeps missing_value s) as [E' | E'];
    rewrite E' in E; [discriminate|].
  subst s. now apply list_elem_of_In.
Qed.

(** X20. The extrema of a payload made from a grid of float32 numbers that
    holds no positive infinity: [minValue] and [maxValue] are present
    together or absent together, [minValue] is above -100 and at most
    [maxValue]. *)
Theorem payload_value_range
    (dataset : Dataset) (p : payload) (name : string) (var : variable)
    (rest : list (string * variable)) :
  process_grib dataset = Ok p ->
  data_vars dataset = (name, var) :: rest ->
  wf (values var) ->
  float32_grid (values var) ->
  PosInf ∉ ravel (values var) ->
  (minValue p = None <-> maxValue p = None)
  /\ (forall lo hi, minValue p = Some lo -> maxValue p = Some hi ->
                    -100 < lo /\ lo <= hi).
Proof.
  intros Hp Hvar Hwf _ Hfin.
  apply process_grib_pipeline in Hp
    as (name' & var' & rest' & lat0 & lon0 & lat & raw & flipped
        & Hvar' & _ & _ & Ho & Hb).
  rewrite Hvar in Hvar'. injection Hvar' as <- <- <-.
  assert (Hraw : wf raw /\ PosInf ∉ ravel raw).
  { unfold ensure_orientation in Ho.
    destruct (if Nat.eqb (ndim lat0) 2 then item2 lat0 0 0 else item1 lat0 0);
      [|discriminate].
    destruct (if Nat.eqb (ndim lat0) 2 then item2 lat0 (-1) 0 else item1 lat0 (-1));
      [|discriminate].
    cbn [bind] in Ho. destruct (Qlt_le_dec _ _); injection Ho as <- <- <-;
      split; auto using wf_flipud.
    now rewrite elem_of_ravel_flipud. }
  destruct Hraw as [Hraw Hfin'].
  set (grid := normalise_values raw (detect_missing_value var)) in *.
  assert (Hgrid : wf grid)
    by (subst grid; rewrite normalise_values_amap; now apply wf_amap).
  assert (Hpos : PosInf ∉ ravel grid)
    by (intros H; apply Hfin'; now apply normalise_values_posinf in H).
  assert (Hneg : NegInf ∉ ravel grid) by apply normalise_values_no_neginf.
  apply build_payload_inv in Hb as (_ & _ & _ & (lo & Elo & Hmin) & (hi & Ehi & Hmax) & _).
  destruct (nanmin_spec grid Hgrid) as (lo' & Elo' & Hlo1 & Hlo2).
  destruct (nanmax_spec grid Hgrid) as (hi' & Ehi' & Hhi1 & Hhi2).
  assert (lo' = lo) by congruence. assert (hi' = hi) by congruence. subst lo' hi'.
  destruct (least_present grid lo Hlo1 Hlo2 Hneg) as [Hl1 Hl2].
  destruct (greatest_present grid hi Hhi1 Hhi2 Hpos) as [Hg1 Hg2].
  rewrite Hmin, Hmax. split; [now rewrite Hl1, Hg1|].
  intros x y Hx Hy. destruct (Hl2 x Hx) as [Hin Hleast]. destruct (Hg2 y Hy) as [Hin' _].
  split; [eapply present_normalised_above, Hin | now apply Hleast].
Qed.

Lemma payload_value_range_witness : -100 < 1 /\ 1 <= 3.
Proof.
  refine (proj2 (payload_value_range scenario_a scenario_a_payload "unknown"
            {| attrs := <["missing_value"%string := Val (-9999)]> ∅;
               values := Mat 2 [[Val 1; Val 2]; [Val 3; Val (-9999)]] |} [] _ eq_refl _ _ _)
            1 3 eq_refl eq_refl).
  - vm_compute. reflexivity.
  - cbn. repeat constructor.
  - float32_integers.
  - cbn [values ravel concat app]. not_listed.
Defined.
